(** * LuminaRay: ray casting, voxel picking and scene edits

    A shallow embedding of the picking core of the LuminaRay voxel sandbox:

    - [lib/math.ts]: the vector kernel, [intersectSphere] and the CPU
      DDA traversal [intersectVoxels];
    - [lib/shader.ts]: the GLSL [intersectSphere] and [intersectVoxels] of the
      generated fragment shader;
    - [App.tsx]: [handleBlockAction] and [handleLightClick];
    - [components/RayTracerCanvas.tsx]: [getQualityConfig] and
      [performRaycastAction].

    JavaScript numbers and GLSL floats are kept abstract behind the class
    [Num], which lists the operations the code uses.  Three instances are
    given: IEEE binary64 through the kernel's primitive floats (what a JS
    engine computes, with its NaN and infinities), IEEE binary32 through
    the kernel's specification of floating-point operations at precision 24
    (a [highp float] of the shader), and the real numbers (exact
    arithmetic, used where a statement needs the order and field laws).
    Statements that do not depend on numeric laws are proved for every
    instance. *)

From Stdlib Require Import Floats.PrimFloat Floats.FloatOps Floats.SpecFloat.
From Stdlib Require Uint63 Floats.FloatAxioms.
From Stdlib Require Import ZArith Reals Lra Lia.
From stdpp Require Import base option list.

Local Open Scope Z_scope.

(** ** Numbers *)

(** The operations of a JS number (or GLSL float) that the modelled code
    uses.  [nlt a b] is the test [a < b] (and [b > a]); [neqb] is [===].
    [nfloor] is [Math.floor] read as a cell coordinate: it has no value on
    NaN and on the infinities. *)
Class Num (num : Type) := {
  of_Z : Z -> num;
  nadd : num -> num -> num;
  nsub : num -> num -> num;
  nmul : num -> num -> num;
  ndiv : num -> num -> num;
  nopp : num -> num;
  nabs : num -> num;
  nsqrt : num -> num;
  nlt : num -> num -> bool;
  neqb : num -> num -> bool;
  nfloor : num -> option Z
}.

Declare Scope num_scope.
Delimit Scope num_scope with num.
Infix "+" := nadd : num_scope.
Infix "-" := nsub : num_scope.
Infix "*" := nmul : num_scope.
Infix "/" := ndiv : num_scope.
Notation "- a" := (nopp a) : num_scope.
Infix "<?" := nlt : num_scope.

(** A decimal literal [m / 10^k], e.g. [dec 15 1] for [1.5].  Both [m] and
    [10^k] are exact in binary64 for the literals of this program, so the
    correctly rounded quotient is the literal's value. *)
Definition dec {num : Type} `{Num num} (m : Z) (k : nat) : num :=
  (of_Z m / of_Z (10 ^ Z.of_nat k))%num.

(** *** IEEE binary64 *)

Definition float_of_Z (z : Z) : float :=
  match z with
  | Z0 => 0%float
  | Zpos _ => PrimFloat.of_uint63 (Uint63.of_Z z)
  | Zneg p => PrimFloat.opp (PrimFloat.of_uint63 (Uint63.of_Z (Zpos p)))
  end.

Definition float_floor (f : float) : option Z :=
  match Prim2SF f with
  | S754_zero _ => Some 0
  | S754_finite s m e =>
      let v := if s then Zneg m else Zpos m in
      Some (if 0 <=? e then v * 2 ^ e else v / 2 ^ (- e))
  | S754_infinity _ => None
  | S754_nan => None
  end.

#[export] Instance FloatNum : Num float := {|
  of_Z := float_of_Z;
  nadd := PrimFloat.add;
  nsub := PrimFloat.sub;
  nmul := PrimFloat.mul;
  ndiv := PrimFloat.div;
  nopp := PrimFloat.opp;
  nabs := PrimFloat.abs;
  nsqrt := PrimFloat.sqrt;
  nlt := PrimFloat.ltb;
  neqb := PrimFloat.eqb;
  nfloor := float_floor
|}.

(** *** IEEE binary32 *)

(** A binary32 value is a [spec_float] produced by the operations below:
    the kernel's specification of IEEE arithmetic ([SpecFloat]), rounding
    to nearest even at precision 24 with exponents below 128.  The same
    operations at precision 53 with exponents below 1024 are the
    specification of the primitive binary64 operations. *)
Definition prec32 : Z := 24.
Definition emax32 : Z := 128.

Definition float32_of_Z (z : Z) : spec_float :=
  binary_normalize prec32 emax32 z 0 false.

Definition float32_floor (f : spec_float) : option Z :=
  match f with
  | S754_zero _ => Some 0
  | S754_finite s m e =>
      let v := if s then Zneg m else Zpos m in
      Some (if 0 <=? e then v * 2 ^ e else v / 2 ^ (- e))
  | S754_infinity _ => None
  | S754_nan => None
  end.

#[export] Instance Float32Num : Num spec_float := {|
  of_Z := float32_of_Z;
  nadd := SFadd prec32 emax32;
  nsub := SFsub prec32 emax32;
  nmul := SFmul prec32 emax32;
  ndiv := SFdiv prec32 emax32;
  nopp := SFopp;
  nabs := SFabs;
  nsqrt := SFsqrt prec32 emax32;
  nlt := SFltb;
  neqb := SFeqb;
  nfloor := float32_floor
|}.

(** *** Exact real arithmetic *)

Definition Rltb (a b : R) : bool := if Rlt_dec a b then true else false.
Definition Reqb (a b : R) : bool := if Req_dec_T a b then true else false.

#[export] Instance RNum : Num R := {|
  of_Z := IZR;
  nadd := Rplus;
  nsub := Rminus;
  nmul := Rmult;
  ndiv := Rdiv;
  nopp := Ropp;
  nabs := Rabs;
  nsqrt := sqrt;
  nlt := Rltb;
  neqb := Reqb;
  nfloor := fun r => Some (Zfloor r)
|}.

(** *** Laws of the comparisons *)

(** What the tie-breaking of the traversal needs of [<] and [===]: values
    that are [===] are not [<], [<] is asymmetric, and [===] values compare
    alike with any third value.  NaN is [===] to nothing, itself included,
    and [<] nothing; the laws hold of it vacuously. *)
Record NumOrder (num : Type) `{Num num} : Prop := {
  neqb_not_nlt : forall a b : num, neqb a b = true -> nlt a b = false;
  nlt_asym : forall a b : num, nlt a b = true -> nlt b a = false;
  neqb_nlt_l : forall a b c : num, neqb a b = true -> nlt a c = nlt b c;
  neqb_nlt_r : forall a b c : num, neqb a b = true -> nlt c a = nlt c b
}.

(** ** types.ts *)

Record Vec3 (A : Type) := V3 { v0 : A; v1 : A; v2 : A }.
Arguments V3 {A} _ _ _.
Arguments v0 {A} _.
Arguments v1 {A} _.
Arguments v2 {A} _.

Inductive ToolType := BLOCK | LIGHT | DELETE.
Inductive QualityMode := LOW | MEDIUM | HIGH | ULTRA.

Record Light (num : Type) := mkLight {
  position : Vec3 num;
  color : Vec3 num;
  radius : num;
  intensity : num
}.
Arguments mkLight {num} _ _ _ _.
Arguments position {num} _.
Arguments color {num} _.
Arguments radius {num} _.
Arguments intensity {num} _.

Definition GRID_SIZE : Z := 32.
Definition PALETTE_SIZE : Z := 16.
Definition MIRROR_ID : Z := 100.

Definition PALETTE {num : Type} `{Num num} : list (Vec3 num) :=
  [ V3 (dec 9 1) (dec 9 1) (dec 9 1);
    V3 (dec 8 1) (dec 2 1) (dec 2 1);
    V3 (dec 2 1) (dec 8 1) (dec 2 1);
    V3 (dec 2 1) (dec 2 1) (dec 8 1);
    V3 (dec 9 1) (dec 6 1) (dec 1 1);
    V3 (dec 9 1) (dec 9 1) (dec 2 1);
    V3 (dec 6 1) (dec 2 1) (dec 8 1);
    V3 (dec 2 1) (dec 9 1) (dec 9 1);
    V3 (dec 5 1) (dec 5 1) (dec 5 1);
    V3 (dec 2 1) (dec 2 1) (dec 2 1);
    V3 (dec 5 1) (dec 0 1) (dec 0 1);
    V3 (dec 0 1) (dec 5 1) (dec 0 1);
    V3 (dec 9 1) (dec 5 1) (dec 5 1);
    V3 (dec 4 1) (dec 2 1) (dec 0 1);
    V3 (dec 6 1) (dec 7 1) (dec 8 1);
    V3 (dec 1 1) (dec 1 1) (dec 1 1) ].

(** ** lib/math.ts: vector kernel *)

Section Math3D.
Context {num : Type} `{Num num}.
Local Open Scope num_scope.

Definition add (a b : Vec3 num) : Vec3 num :=
  V3 (v0 a + v0 b) (v1 a + v1 b) (v2 a + v2 b).
Definition sub (a b : Vec3 num) : Vec3 num :=
  V3 (v0 a - v0 b) (v1 a - v1 b) (v2 a - v2 b).
Definition scale (a : Vec3 num) (s : num) : Vec3 num :=
  V3 (v0 a * s) (v1 a * s) (v2 a * s).
Definition cross (a b : Vec3 num) : Vec3 num :=
  V3 (v1 a * v2 b - v2 a * v1 b)
     (v2 a * v0 b - v0 a * v2 b)
     (v0 a * v1 b - v1 a * v0 b).
Definition dot (a b : Vec3 num) : num :=
  v0 a * v0 b + v1 a * v1 b + v2 a * v2 b.
Definition normalize (a : Vec3 num) : Vec3 num :=
  let len := nsqrt (dot a a) in
  if neqb len (of_Z 0) then V3 (of_Z 0) (of_Z 0) (of_Z 0)
  else V3 (v0 a / len) (v1 a / len) (v2 a / len).
Definition len (a : Vec3 num) : num := nsqrt (dot a a).

(** Ray-sphere intersection of the CPU side; [None] is [null]. *)
Definition intersectSphere (ro rd center : Vec3 num) (radius : num)
  : option num :=
  let oc := sub ro center in
  let b := dot oc rd in
  let c := dot oc oc - radius * radius in
  let h := b * b - c in
  if h <? of_Z 0 then None
  else
    let t := - b - nsqrt h in
    if of_Z 0 <? t then Some t
    else if of_Z 0 <? - b + nsqrt h then Some (- b + nsqrt h)
    else None.

(** Ray-sphere intersection of the fragment shader; a miss is [-1.0]. *)
Definition intersectSphere_glsl (ro rd center : Vec3 num) (radius : num)
  : num :=
  let oc := sub ro center in
  let b := dot oc rd in
  let c := dot oc oc - radius * radius in
  let h := b * b - c in
  if h <? of_Z 0 then of_Z (-1)
  else - b - nsqrt h.
End Math3D.

(** ** The voxel grid *)

(** [gridData] is a [Uint8Array]: a list of bytes held as [Z].  Reading
    outside the array gives [undefined] ([None]); writing outside is ignored
    and a written value is reduced modulo 256. *)
Definition grid_get (grid : list Z) (i : Z) : option Z :=
  if 0 <=? i then grid !! Z.to_nat i else None.

Definition grid_set (grid : list Z) (i v : Z) : list Z :=
  if 0 <=? i then <[Z.to_nat i := v mod 256]> grid else grid.

(** Integer vectors: cell coordinates and face normals.  They are
    integer-valued JS numbers in the source. *)
Definition cell_add (a b : Vec3 Z) : Vec3 Z :=
  V3 (v0 a + v0 b) (v1 a + v1 b) (v2 a + v2 b).

Definition of_cell {num : Type} `{Num num} (c : Vec3 Z) : Vec3 num :=
  V3 (of_Z (v0 c)) (of_Z (v1 c)) (of_Z (v2 c)).

(** ** lib/math.ts and lib/shader.ts: DDA traversal *)

(** The loop variables of the traversal.  The CPU code calls them
    [x], [y], [z], [sideDistX..Z], [normal], [dist]; the shader calls them
    [pos], [tMax], [normal], [t]. *)
Record Ray (num : Type) := mkRay {
  cellX : Z;
  cellY : Z;
  cellZ : Z;
  sideDistX : num;
  sideDistY : num;
  sideDistZ : num;
  normal : Vec3 Z;
  dist : num
}.
Arguments mkRay {num} _ _ _ _ _ _ _ _.
Arguments cellX {num} _.
Arguments cellY {num} _.
Arguments cellZ {num} _.
Arguments sideDistX {num} _.
Arguments sideDistY {num} _.
Arguments sideDistZ {num} _.
Arguments normal {num} _.
Arguments dist {num} _.

(** The loop constants: [stepX..Z] and [deltaDistX..Z] on the CPU,
    [step] and [tDelta] in the shader. *)
Record Stride (num : Type) := mkStride {
  stepX : Z;
  stepY : Z;
  stepZ : Z;
  deltaDistX : num;
  deltaDistY : num;
  deltaDistZ : num
}.
Arguments mkStride {num} _ _ _ _ _ _.
Arguments stepX {num} _.
Arguments stepY {num} _.
Arguments stepZ {num} _.
Arguments deltaDistX {num} _.
Arguments deltaDistY {num} _.
Arguments deltaDistZ {num} _.

(** What the CPU traversal returns on a hit. *)
Record Hit (num : Type) := mkHit {
  pos : Vec3 Z;
  hit_normal : Vec3 Z;
  voxelId : Z;
  t : num
}.
Arguments mkHit {num} _ _ _ _.
Arguments pos {num} _.
Arguments hit_normal {num} _.
Arguments voxelId {num} _.
Arguments t {num} _.

(** The shader's [struct VoxelHit]. *)
Record VoxelHit (num : Type) := mkVoxelHit {
  vh_t : num;
  vh_normal : Vec3 Z;
  vh_id : Z
}.
Arguments mkVoxelHit {num} _ _ _.
Arguments vh_t {num} _.
Arguments vh_normal {num} _.
Arguments vh_id {num} _.

Section Traversal.
Context {num : Type} `{Num num}.
Local Open Scope num_scope.

(** The three branch bodies of the step: the four assignments made when
    the X, Y or Z boundary is crossed. *)
Definition advanceX (p : Stride num) (s : Ray num) : Ray num :=
  {| cellX := (cellX s + stepX p)%Z; cellY := cellY s; cellZ := cellZ s;
     sideDistX := sideDistX s + deltaDistX p;
     sideDistY := sideDistY s; sideDistZ := sideDistZ s;
     normal := V3 (- stepX p)%Z 0%Z 0%Z;
     dist := sideDistX s |}.

Definition advanceY (p : Stride num) (s : Ray num) : Ray num :=
  {| cellX := cellX s; cellY := (cellY s + stepY p)%Z; cellZ := cellZ s;
     sideDistX := sideDistX s;
     sideDistY := sideDistY s + deltaDistY p;
     sideDistZ := sideDistZ s;
     normal := V3 0%Z (- stepY p)%Z 0%Z;
     dist := sideDistY s |}.

Definition advanceZ (p : Stride num) (s : Ray num) : Ray num :=
  {| cellX := cellX s; cellY := cellY s; cellZ := (cellZ s + stepZ p)%Z;
     sideDistX := sideDistX s; sideDistY := sideDistY s;
     sideDistZ := sideDistZ s + deltaDistZ p;
     normal := V3 0%Z 0%Z (- stepZ p)%Z;
     dist := sideDistZ s |}.

(** math.ts, the nested comparisons that end the loop body. *)
Definition dda_step (p : Stride num) (s : Ray num) : Ray num :=
  if sideDistX s <? sideDistY s then
    if sideDistX s <? sideDistZ s then advanceX p s else advanceZ p s
  else
    if sideDistY s <? sideDistZ s then advanceY p s else advanceZ p s.

(** shader.ts, the same comparisons on [tMax]. *)
Definition glsl_step (p : Stride num) (s : Ray num) : Ray num :=
  if sideDistX s <? sideDistY s then
    if sideDistX s <? sideDistZ s then advanceX p s else advanceZ p s
  else
    if sideDistY s <? sideDistZ s then advanceY p s else advanceZ p s.

Definition out_of_bounds (gridSize : Z) (s : Ray num) : bool :=
  (cellX s <? 0)%Z || (gridSize <=? cellX s)%Z ||
  (cellY s <? 0)%Z || (gridSize <=? cellY s)%Z ||
  (cellZ s <? 0)%Z || (gridSize <=? cellZ s)%Z.

Definition cell_index (gridSize : Z) (s : Ray num) : Z :=
  (cellX s + cellY s * gridSize + cellZ s * gridSize * gridSize)%Z.

(** The [for] loop of the CPU traversal, [fuel] iterations left. *)
Fixpoint voxel_loop (grid : list Z) (gridSize : Z) (p : Stride num)
    (fuel : nat) (s : Ray num) : option (Hit num) :=
  match fuel with
  | O => None
  | S fuel' =>
      if out_of_bounds gridSize s then
        if of_Z gridSize * dec 15 1 <? dist s then None
        else voxel_loop grid gridSize p fuel' (dda_step p s)
      else
        match grid_get grid (cell_index gridSize s) with
        | Some voxel =>
            if (0 <? voxel)%Z then
              Some {| pos := V3 (cellX s) (cellY s) (cellZ s);
                      hit_normal := normal s;
                      voxelId := voxel;
                      t := dist s |}
            else voxel_loop grid gridSize p fuel' (dda_step p s)
        | None => voxel_loop grid gridSize p fuel' (dda_step p s)
        end
  end.

Definition cpu_stride (rd : Vec3 num) : Stride num :=
  {| stepX := if of_Z 0 <? v0 rd then 1 else -1;
     stepY := if of_Z 0 <? v1 rd then 1 else -1;
     stepZ := if of_Z 0 <? v2 rd then 1 else -1;
     deltaDistX := nabs (of_Z 1 / v0 rd);
     deltaDistY := nabs (of_Z 1 / v1 rd);
     deltaDistZ := nabs (of_Z 1 / v2 rd) |}.

Definition cpu_start (ro rd : Vec3 num) (x y z : Z) : Ray num :=
  let p := cpu_stride rd in
  {| cellX := x; cellY := y; cellZ := z;
     sideDistX := (if of_Z 0 <? v0 rd then of_Z x + of_Z 1 - v0 ro
                   else v0 ro - of_Z x) * deltaDistX p;
     sideDistY := (if of_Z 0 <? v1 rd then of_Z y + of_Z 1 - v1 ro
                   else v1 ro - of_Z y) * deltaDistY p;
     sideDistZ := (if of_Z 0 <? v2 rd then of_Z z + of_Z 1 - v2 ro
                   else v2 ro - of_Z z) * deltaDistZ p;
     normal := V3 0%Z 0%Z 0%Z;
     dist := of_Z 0 |}.

(** 3D DDA of the CPU side (cursor picking); [None] is [null].  An origin
    component that is NaN or infinite never passes the bounds test
    followed by a positive array read, so such a call returns [null]. *)
Definition intersectVoxels (ro rd : Vec3 num) (grid : list Z)
    (gridSize : Z) : option (Hit num) :=
  match nfloor (v0 ro), nfloor (v1 ro), nfloor (v2 ro) with
  | Some x, Some y, Some z =>
      voxel_loop grid gridSize (cpu_stride rd)
        (Z.to_nat (gridSize * 2)) (cpu_start ro rd x y z)
  | _, _, _ => None
  end.

(** GLSL [sign]. *)
Definition sign (a : num) : Z :=
  if of_Z 0 <? a then 1 else if a <? of_Z 0 then -1 else 0.

Definition MAX_DIST : num := of_Z 100.

(** [texture(u_grid, (pos + 0.5) / 32.0).r] followed by
    [int(val * 255.0 + 0.5)]: the byte of the cell in the 32x32x32 R8
    texture that [texImage3D] fills from [gridData] (nearest filtering). *)
Definition texel (grid : list Z) (s : Ray num) : Z :=
  default 0%Z (grid_get grid (cell_index 32 s)).

(** The [for] loop of the shader traversal; [Some (s, id)] is the state
    at [return VoxelHit(t, normal, id)], [None] the fall-through to the
    final [return VoxelHit(-1.0, vec3(0.0), 0)]. *)
Fixpoint glsl_loop (grid : list Z) (p : Stride num)
    (fuel : nat) (s : Ray num) : option (Ray num * Z) :=
  match fuel with
  | O => None
  | S fuel' =>
      let continue :=
        let s' := glsl_step p s in
        if MAX_DIST <? dist s' then None
        else glsl_loop grid p fuel' s' in
      if out_of_bounds 32 s then
        if MAX_DIST <? dist s then None else continue
      else
        let id := texel grid s in
        if (0 <? id)%Z then Some (s, id) else continue
  end.

Definition glsl_stride (rd : Vec3 num) : Stride num :=
  {| stepX := sign (v0 rd);
     stepY := sign (v1 rd);
     stepZ := sign (v2 rd);
     deltaDistX := of_Z 1 / nabs (v0 rd);
     deltaDistY := of_Z 1 / nabs (v1 rd);
     deltaDistZ := of_Z 1 / nabs (v2 rd) |}.

Definition glsl_start (ro rd : Vec3 num) (x y z : Z) : Ray num :=
  let p := glsl_stride rd in
  {| cellX := x; cellY := y; cellZ := z;
     sideDistX := (of_Z (stepX p) * (of_Z x - v0 ro + dec 5 1) + dec 5 1)
                  * deltaDistX p;
     sideDistY := (of_Z (stepY p) * (of_Z y - v1 ro + dec 5 1) + dec 5 1)
                  * deltaDistY p;
     sideDistZ := (of_Z (stepZ p) * (of_Z z - v2 ro + dec 5 1) + dec 5 1)
                  * deltaDistZ p;
     normal := V3 0%Z 0%Z 0%Z;
     dist := of_Z 0 |}.

Definition glsl_run (MAX_STEPS : Z) (ro rd : Vec3 num) (grid : list Z)
  : option (Ray num * Z) :=
  match nfloor (v0 ro), nfloor (v1 ro), nfloor (v2 ro) with
  | Some x, Some y, Some z =>
      glsl_loop grid (glsl_stride rd) (Z.to_nat MAX_STEPS)
        (glsl_start ro rd x y z)
  | _, _, _ => None
  end.

Definition glsl_miss : VoxelHit num :=
  {| vh_t := of_Z (-1); vh_normal := V3 0%Z 0%Z 0%Z; vh_id := 0%Z |}.

(** Voxel traversal of the fragment shader generated with
    [MAX_STEPS = config.maxSteps]. *)
Definition intersectVoxels_glsl (MAX_STEPS : Z) (ro rd : Vec3 num)
    (grid : list Z) : VoxelHit num :=
  match glsl_run MAX_STEPS ro rd grid with
  | Some (s, id) => {| vh_t := dist s; vh_normal := normal s; vh_id := id |}
  | None => glsl_miss
  end.

(** The cell [pos] held by the shader when it returns a hit. *)
Definition glsl_hit_cell (MAX_STEPS : Z) (ro rd : Vec3 num)
    (grid : list Z) : option (Vec3 Z) :=
  match glsl_run MAX_STEPS ro rd grid with
  | Some (s, _) => Some (V3 (cellX s) (cellY s) (cellZ s))
  | None => None
  end.
End Traversal.

(** ** App.tsx: application state and edit actions *)

(** The React state of [App] that the edit actions read and write. *)
Record AppState (num : Type) := mkApp {
  gridData : list Z;
  lights : list (Light num);
  cameraPos : Vec3 num;
  cameraYaw : num;
  cameraPitch : num;
  selectedColorIdx : Z;
  isMirrorSelected : bool;
  tool : ToolType
}.
Arguments mkApp {num} _ _ _ _ _ _ _ _.
Arguments gridData {num} _.
Arguments lights {num} _.
Arguments cameraPos {num} _.
Arguments cameraYaw {num} _.
Arguments cameraPitch {num} _.
Arguments selectedColorIdx {num} _.
Arguments isMirrorSelected {num} _.
Arguments tool {num} _.

(** [prev.filter((_, i) => i !== lightIndex)]. *)
Fixpoint filter_index {A : Type} (lightIndex : Z) (i : Z) (l : list A)
  : list A :=
  match l with
  | [] => []
  | a :: l' =>
      if (i =? lightIndex)%Z then filter_index lightIndex (i + 1) l'
      else a :: filter_index lightIndex (i + 1) l'
  end.

Section App.
Context {num : Type} `{Num num}.
Local Open Scope num_scope.

Definition set_gridData (st : AppState num) (g : list Z) : AppState num :=
  mkApp g (lights st) (cameraPos st) (cameraYaw st) (cameraPitch st)
    (selectedColorIdx st) (isMirrorSelected st) (tool st).

Definition set_lights (st : AppState num) (l : list (Light num))
  : AppState num :=
  mkApp (gridData st) l (cameraPos st) (cameraYaw st) (cameraPitch st)
    (selectedColorIdx st) (isMirrorSelected st) (tool st).

Definition setTool (st : AppState num) (tl : ToolType) : AppState num :=
  mkApp (gridData st) (lights st) (cameraPos st) (cameraYaw st)
    (cameraPitch st) (selectedColorIdx st) (isMirrorSelected st) tl.

(** [idx] of [handleBlockAction]. *)
Definition idx (p : Vec3 Z) : Z :=
  (v0 p + v1 p * GRID_SIZE + v2 p * GRID_SIZE * GRID_SIZE)%Z.

Definition in_grid (target : Vec3 Z) : bool :=
  (0 <=? v0 target)%Z && (v0 target <? GRID_SIZE)%Z &&
  (0 <=? v1 target)%Z && (v1 target <? GRID_SIZE)%Z &&
  (0 <=? v2 target)%Z && (v2 target <? GRID_SIZE)%Z.

(** The updater passed to [setGridData]: works on a copy of [prev]. *)
Definition blockGridUpdate (st : AppState num) (hitPos nrm : Vec3 Z)
    (prev : list Z) : list Z :=
  let newData := prev in
  match tool st with
  | DELETE =>
      let i := idx hitPos in
      if (0 <=? i)%Z && (i <? Z.of_nat (length newData))%Z
      then grid_set newData i 0
      else newData
  | BLOCK =>
      let target := cell_add hitPos nrm in
      let i := idx target in
      if in_grid target then
        let p := add (of_cell target) (V3 (dec 5 1) (dec 5 1) (dec 5 1)) in
        if of_Z 1 <? len (sub p (cameraPos st)) then
          grid_set newData i
            (if isMirrorSelected st then MIRROR_ID
             else (selectedColorIdx st + 1)%Z)
        else newData
      else newData
  | LIGHT => newData
  end.

(** [PALETTE[selectedColorIdx]]; the index is only ever set from a palette
    button, so it is below 16. *)
Definition palette_color (i : Z) : Vec3 num :=
  default (V3 (of_Z 0) (of_Z 0) (of_Z 0))
    (if (0 <=? i)%Z then PALETTE !! Z.to_nat i else None).

(** The updater passed to [setLights] when the tool is LIGHT. *)
Definition lightsUpdate (st : AppState num) (hitPos nrm : Vec3 Z)
    (prev : list (Light num)) : list (Light num) :=
  let target := cell_add hitPos nrm in
  let newLight :=
    {| position := V3 (of_Z (v0 target) + dec 5 1)
                      (of_Z (v1 target) + dec 5 1)
                      (of_Z (v2 target) + dec 5 1);
       color := palette_color (selectedColorIdx st);
       radius := of_Z 2;
       intensity := of_Z 2 |} in
  if (length prev <? 10)%nat then prev ++ [newLight] else prev.

Definition handleBlockAction (st : AppState num) (hitPos nrm : Vec3 Z)
  : AppState num :=
  let st1 := set_gridData st (blockGridUpdate st hitPos nrm (gridData st)) in
  match tool st with
  | LIGHT => set_lights st1 (lightsUpdate st hitPos nrm (lights st1))
  | _ => st1
  end.

Definition handleLightClick (st : AppState num) (lightIndex : Z)
  : AppState num :=
  match tool st with
  | DELETE => set_lights st (filter_index lightIndex 0 (lights st))
  | _ => st
  end.
End App.

(** ** components/RayTracerCanvas.tsx *)

Record QualityConfig (num : Type) := mkQuality {
  qscale : num;
  maxSteps : Z;
  maxBounces : Z;
  shadowSteps : Z
}.
Arguments mkQuality {num} _ _ _ _.
Arguments qscale {num} _.
Arguments maxSteps {num} _.
Arguments maxBounces {num} _.
Arguments shadowSteps {num} _.

Section Canvas.
Context {num : Type} `{Num num}.
Local Open Scope num_scope.

(** [Math.cos] and [Math.sin]: implementation-approximated in JS. *)
Variables Math_cos Math_sin : num -> num.

Definition getQualityConfig (qualityMode : QualityMode)
  : QualityConfig num :=
  match qualityMode with
  | ULTRA => mkQuality (dec 10 1) 1024 32 128
  | HIGH => mkQuality (dec 10 1) 384 8 64
  | MEDIUM => mkQuality (dec 75 2) 128 3 32
  | LOW => mkQuality (dec 5 1) 64 2 16
  end.

(** The body of [lights.forEach]: one light, index [i], against the
    running [(closestLightIdx, minLightDist)]. *)
Definition lightProbe (camPos camDir : Vec3 num)
    (acc : Z * num) (i : Z) (l : Light num) : Z * num :=
  match intersectSphere camPos camDir (position l) (dec 2 1) with
  | Some tl =>
      if (of_Z 0 <? tl) && (tl <? snd acc) then (i, tl) else acc
  | None => acc
  end.

Fixpoint lightsForEach (camPos camDir : Vec3 num)
    (acc : Z * num) (i : Z) (ls : list (Light num)) : Z * num :=
  match ls with
  | [] => acc
  | l :: ls' =>
      lightsForEach camPos camDir (lightProbe camPos camDir acc i l)
        (i + 1)%Z ls'
  end.

(** What a click resolves to, before the callbacks run. *)
Inductive Pick :=
| PickLight (closestLightIdx : Z)
| PickVoxel (hit : Hit num)
| PickNothing.

Definition camDirOf (yaw pitch : num) : Vec3 num :=
  let cp := Math_cos pitch in
  let sp := Math_sin pitch in
  let cy := Math_cos yaw in
  let sy := Math_sin yaw in
  V3 (sy * cp) sp (cy * cp).

(** The decision of [performRaycastAction].  The refs [cameraPosRef] and
    [cameraAngleRef] it reads are mirrored into the [App] state by
    [onCameraMove] on every change, so they are read from there. *)
Definition resolvePick (st : AppState num) : Pick :=
  let camDir := camDirOf (cameraYaw st) (cameraPitch st) in
  let camPos := cameraPos st in
  let '(closestLightIdx, minLightDist) :=
    lightsForEach camPos camDir ((-1)%Z, of_Z 100) 0%Z (lights st) in
  let hit := intersectVoxels camPos camDir (gridData st) GRID_SIZE in
  let voxelDist := match hit with Some h => t h | None => of_Z 1000 end in
  if negb (closestLightIdx =? -1)%Z && (minLightDist <? voxelDist)
  then PickLight closestLightIdx
  else match hit with
       | Some h => PickVoxel h
       | None => PickNothing
       end.

Definition performRaycastAction (st : AppState num) : AppState num :=
  match resolvePick st with
  | PickLight i => handleLightClick st i
  | PickVoxel h => handleBlockAction st (pos h) (hit_normal h)
  | PickNothing => st
  end.
End Canvas.

(** ** App.tsx: quality toggle *)

Definition toggleQuality (prev : QualityMode) : QualityMode :=
  match prev with
  | LOW => MEDIUM
  | MEDIUM => HIGH
  | HIGH => ULTRA
  | ULTRA => LOW
  end.

(** ** Reference scenes *)

Definition emptyGrid : list Z := replicate (Z.to_nat 32768) 0.

(** The grid with the single voxel [id] at cell [(x, y, z)]. *)
Definition oneVoxel (x y z id : Z) : list Z :=
  grid_set emptyGrid (x + y * 32 + z * 32 * 32) id.

(** Two rays whose values are exact in binary32 and in binary64, in any
    number model.  The first leaves the centre of cell (0,0,0) along
    (7,1,1): after three X crossings the three boundary distances are all
    1/2 in exact arithmetic, and 1/7 is rounded differently by the two
    formats.  [twoVoxels] puts voxel 1 at (4,0,0) and voxel 2 at (3,0,1). *)
Definition seventhRay_ro {num : Type} `{Num num} : Vec3 num :=
  V3 (dec 5 1) (dec 5 1) (dec 5 1).
Definition seventhRay_rd {num : Type} `{Num num} : Vec3 num :=
  V3 (of_Z 7) (of_Z 1) (of_Z 1).
Definition twoVoxels : list Z :=
  grid_set (oneVoxel 4 0 0 1) (3 + 0 * 32 + 1 * 32 * 32) 2.

(** The second starts at (1.125, 1/8 + 2^-(k+3), 0.5) in cell (1,0,0) and
    runs along (-1,-1,-1); [k + 1] is the precision of the format, 52 for
    binary64 and 23 for binary32, so that the y coordinate is one unit in
    the last place above 1/8. *)
Definition cornerRay_ro {num : Type} `{Num num} (k : Z) : Vec3 num :=
  V3 (dec 1125 3) (of_Z (2 ^ k + 1) / of_Z (2 ^ (k + 3)))%num (dec 5 1).
Definition cornerRay_rd {num : Type} `{Num num} : Vec3 num :=
  V3 (of_Z (-1)) (of_Z (-1)) (of_Z (-1)).

(** The shader's central sphere. *)
Definition sphereCenter {num : Type} `{Num num} : Vec3 num :=
  V3 (of_Z 16) (of_Z 6) (of_Z 16).
Definition sphereRadius {num : Type} `{Num num} : num := of_Z 4.

(** The sphere root policy in the words of the specification: no hit when
    [h < 0]; otherwise the near root [t0 = -b - sqrt h] if [t0 > 0], else
    the far root [t1 = -b + sqrt h] if [t1 > 0], else no hit. *)
Definition spec_sphere_policy {num : Type} `{Num num} (b h : num)
  : option num :=
  if (h <? of_Z 0)%num then None
  else
    let t0 := (- b - nsqrt h)%num in
    let t1 := (- b + nsqrt h)%num in
    if (of_Z 0 <? t0)%num then Some t0
    else if (of_Z 0 <? t1)%num then Some t1
    else None.

(** How the callers of the shader's [intersectSphere] read its result:
    a hit is a value [> 0.0]. *)
Definition glsl_sphere_result {num : Type} `{Num num} (sT : num)
  : option num :=
  if (of_Z 0 <? sT)%num then Some sT else None.

(** ** Vocabulary of the edit properties *)

(** Distance from the camera to the centre of cell [target], as
    [handleBlockAction] computes it. *)
Definition camera_distance {num : Type} `{Num num}
    (st : AppState num) (target : Vec3 Z) : num :=
  len (sub (add (of_cell target) (V3 (dec 5 1) (dec 5 1) (dec 5 1)))
           (cameraPos st)).

(** The centre of [target] is within distance 1.0 of the camera: the test
    [distance > 1.0] fails. *)
Definition camera_within_one {num : Type} `{Num num}
    (st : AppState num) (target : Vec3 Z) : Prop :=
  (of_Z 1 <? camera_distance st target)%num = false.

(** The id a Block-tool edit writes. *)
Definition selected_id {num : Type} (st : AppState num) : Z :=
  if isMirrorSelected st then MIRROR_ID else selectedColorIdx st + 1.

(** A grid as the application holds it: 32^3 bytes. *)
Definition grid_wf (grid : list Z) : Prop :=
  Z.of_nat (length grid) = 32768 /\ Forall (fun v => 0 <= v < 256) grid.

(** ** App.tsx: the initial scene *)

(** The checkered 16x16 floor written by the [gridData] initialiser. *)
Definition initialGrid : list Z :=
  foldr (fun x g =>
           foldr (fun z g' =>
                    grid_set g' (x + 0 * GRID_SIZE + z * GRID_SIZE * GRID_SIZE)
                      (if (x + z) mod 2 =? 0 then 15 else 9))
                 g (seqZ 8 16))
        emptyGrid (seqZ 8 16).

Definition initialLights {num : Type} `{Num num} : list (Light num) :=
  [ mkLight (V3 (of_Z 16) (of_Z 12) (of_Z 16))
            (V3 (of_Z 1) (of_Z 1) (of_Z 1)) (of_Z 2) (of_Z 3);
    mkLight (V3 (of_Z 8) (of_Z 5) (of_Z 8))
            (V3 (of_Z 1) (dec 2 1) (dec 2 1)) (of_Z 2) (of_Z 2) ].

(** The scene [App] starts with, seen from [camPos] with yaw and pitch 0
    and tool [tl] selected. *)
Definition sceneAt {num : Type} `{Num num} (camPos : Vec3 num)
    (tl : ToolType) : AppState num :=
  mkApp initialGrid initialLights camPos (of_Z 0) (of_Z 0) 0 false tl.

(** [Math.cos] and [Math.sin] at the angle 0 of that camera:
    [cos 0 = 1], [sin 0 = 0]. *)
Definition cos_at_0 {num : Type} `{Num num} (a : num) : num := of_Z 1.
Definition sin_at_0 {num : Type} `{Num num} (a : num) : num := of_Z 0.

(** Ten lights: the two initial ones and eight more at the same place. *)
Definition tenLights {num : Type} `{Num num} : list (Light num) :=
  initialLights ++
  replicate 8 (mkLight (V3 (of_Z 8) (of_Z 5) (of_Z 8))
                       (V3 (of_Z 1) (dec 2 1) (dec 2 1)) (of_Z 2) (of_Z 2)).

(** ** Vocabulary of the traversal properties *)

Definition cell_of {num : Type} (s : Ray num) : Vec3 Z :=
  V3 (cellX s) (cellY s) (cellZ s).

(** Cell [c] holds no voxel: if it lies in the grid, what the array holds
    there is not positive. *)
Definition cell_free (grid : list Z) (c : Vec3 Z) : Prop :=
  in_grid c = true -> forall v, grid_get grid (idx c) = Some v -> v <= 0.

(** The traversal is at cell [c] with last normal [n]: either it has not
    moved from its start cell [c0], or the cell it came from, [c + n],
    holds no voxel. *)
Definition entered_from_free (grid : list Z) (c0 c n : Vec3 Z) : Prop :=
  (n = V3 0 0 0 /\ c = c0) \/ cell_free grid (cell_add c n).

(** The three outcomes of a step, written out: the cell, boundary
    distance, normal and running distance after crossing the X, Y or Z
    boundary; and the rule for exactly equal boundary distances.  Of two
    [===] values the later axis in the order X, Y, Z is preferred: with
    X and Y tied the step is Y, unless Z is not above them, then Z; with X
    and Z tied the step is Z unless Y is strictly less; with Y and Z tied
    the step is Z unless X is strictly less.  X never wins a tie.  Both
    code paths take the same step. *)
Definition tie_rule (num : Type) `{Num num} : Prop :=
  forall (p : Stride num) (s : Ray num),
    let crossX :=
      mkRay (cellX s + stepX p) (cellY s) (cellZ s)
        (sideDistX s + deltaDistX p)%num (sideDistY s) (sideDistZ s)
        (V3 (- stepX p) 0 0) (sideDistX s) in
    let crossY :=
      mkRay (cellX s) (cellY s + stepY p) (cellZ s)
        (sideDistX s) (sideDistY s + deltaDistY p)%num (sideDistZ s)
        (V3 0 (- stepY p) 0) (sideDistY s) in
    let crossZ :=
      mkRay (cellX s) (cellY s) (cellZ s + stepZ p)
        (sideDistX s) (sideDistY s) (sideDistZ s + deltaDistZ p)%num
        (V3 0 0 (- stepZ p)) (sideDistZ s) in
    (neqb (sideDistX s) (sideDistY s) = true ->
       dda_step p s
       = if (sideDistY s <? sideDistZ s)%num then crossY else crossZ) /\
    (neqb (sideDistX s) (sideDistZ s) = true ->
       dda_step p s
       = if (sideDistY s <? sideDistZ s)%num then crossY else crossZ) /\
    (neqb (sideDistY s) (sideDistZ s) = true ->
       dda_step p s
       = if (sideDistX s <? sideDistY s)%num then crossX else crossZ) /\
    glsl_step p s = dda_step p s.

(** A camera angle [theta] with [cos theta = 3/5] and [sin theta = -4/5],
    used as both yaw and pitch: the view direction is
    [(-12/25, -4/5, 9/25)], a unit vector with no zero component. *)
Definition cos_at_theta (a : R) : R := (3 / 5)%R.
Definition sin_at_theta (a : R) : R := (- 4 / 5)%R.

(** The initial floor, no lights, seen from [camPos] at angle [theta]. *)
Definition floorScene (camPos : Vec3 R) (tl : ToolType) : AppState R :=
  mkApp initialGrid [] camPos 0%R 0%R 0 false tl.

(** ** Vocabulary of the CPU/GPU comparison (exact arithmetic) *)

(** The running distance never exceeds a pending boundary distance, and
    the boundary distances only grow. *)
Definition monotone_state (p : Stride R) (s : Ray R) : Prop :=
  (0 <= deltaDistX p /\ 0 <= deltaDistY p /\ 0 <= deltaDistZ p)%R /\
  (dist s <= sideDistX s /\ dist s <= sideDistY s /\ dist s <= sideDistZ s)%R.

(** On one axis, a ray moving by [step] from coordinate [c] has not yet
    passed the far side of the grid it is heading to. *)
Definition axis_ok (step c : Z) : Prop :=
  (step = 1 /\ 0 <= c) \/ (step = -1 /\ c < 32).

(** On one axis, the ray is outside the grid and moves away from it. *)
Definition axis_left (step c : Z) : Prop :=
  (step = -1 /\ c < 0) \/ (step = 1 /\ 32 <= c).

(** True of every state of a ray that starts inside the grid. *)
Definition not_behind (p : Stride R) (s : Ray R) : Prop :=
  axis_ok (stepX p) (cellX s) /\ axis_ok (stepY p) (cellY s) /\
  axis_ok (stepZ p) (cellZ s).

(** The ray has left the grid on some axis for good. *)
Definition left_grid (p : Stride R) (s : Ray R) : Prop :=
  axis_left (stepX p) (cellX s) \/ axis_left (stepY p) (cellY s) \/
  axis_left (stepZ p) (cellZ s).

(** ** App.tsx: selection and camera callbacks *)

(** [handleCameraMove(pos, angle)]: [setCameraPos] and [setCameraAngle]. *)
Definition handleCameraMove {num : Type} (st : AppState num)
    (p : Vec3 num) (yaw pitch : num) : AppState num :=
  mkApp (gridData st) (lights st) p yaw pitch
    (selectedColorIdx st) (isMirrorSelected st) (tool st).

Definition handleSelectColor {num : Type} (st : AppState num) (i : Z)
  : AppState num :=
  mkApp (gridData st) (lights st) (cameraPos st) (cameraYaw st)
    (cameraPitch st) i false BLOCK.

Definition handleSelectMirror {num : Type} (st : AppState num)
  : AppState num :=
  mkApp (gridData st) (lights st) (cameraPos st) (cameraYaw st)
    (cameraPitch st) (selectedColorIdx st) true BLOCK.

(** The state [App] is created with. *)
Definition initialState {num : Type} `{Num num} : AppState num :=
  mkApp initialGrid initialLights (V3 (of_Z 16) (of_Z 8) (of_Z 4))
    (of_Z 0) (- dec 2 1)%num 0 false BLOCK.

(** ** Reachable application states *)

(** The user actions that change the state modelled here: a click in the
    locked canvas, a palette button (which passes its own index, below
    [PALETTE_SIZE]), the mirror button, a tool button, and a camera update
    reported through [onCameraMove], with whatever position and angles the
    input handlers computed. *)
Inductive Action (num : Type) :=
| Click
| SelectColor (i : Z)
| SelectMirror
| SelectTool (tl : ToolType)
| CameraMove (p : Vec3 num) (yaw pitch : num).
Arguments Click {num}.
Arguments SelectColor {num} _.
Arguments SelectMirror {num}.
Arguments SelectTool {num} _.
Arguments CameraMove {num} _ _ _.

Definition act {num : Type} `{Num num} (Math_cos Math_sin : num -> num)
    (st : AppState num) (a : Action num) : AppState num :=
  match a with
  | Click => performRaycastAction Math_cos Math_sin st
  | SelectColor i => handleSelectColor st i
  | SelectMirror => handleSelectMirror st
  | SelectTool tl => setTool st tl
  | CameraMove p yaw pitch => handleCameraMove st p yaw pitch
  end.

Definition action_ok {num : Type} (a : Action num) : Prop :=
  match a with
  | SelectColor i => 0 <= i < PALETTE_SIZE
  | _ => True
  end.

Inductive reachable {num : Type} `{Num num}
    (Math_cos Math_sin : num -> num) : AppState num -> Prop :=
| reach_init : reachable Math_cos Math_sin initialState
| reach_act st a :
    reachable Math_cos Math_sin st -> action_ok a ->
    reachable Math_cos Math_sin (act Math_cos Math_sin st a).

(** ** Vocabulary of the further properties *)

(** A signed unit vector along one axis. *)
Definition axis_unit (n : Vec3 Z) : Prop :=
  n = V3 1 0 0 \/ n = V3 (-1) 0 0 \/ n = V3 0 1 0 \/ n = V3 0 (-1) 0 \/
  n = V3 0 0 1 \/ n = V3 0 0 (-1).

(** The loop may go on from state [s]: its cell is outside the grid or
    holds no voxel. *)
Definition passable {num : Type} (grid : list Z) (s : Ray num) : Prop :=
  in_grid (cell_of s) = false \/ cell_free grid (cell_of s).

(** The byte of cell [(x, y, z)] in the flat array. *)
Definition byte_at (grid : list Z) (x y z : Z) : option Z :=
  grid !! Z.to_nat (x + 32 * y + 1024 * z).

(** A voxel id the application writes or starts with: empty, a palette
    id, or the mirror. *)
Definition valid_id (v : Z) : Prop :=
  v = 0 \/ 1 <= v <= 16 \/ v = 100.

Definition valid_idb (v : Z) : bool :=
  (v =? 0) || ((1 <=? v) && (v <=? 16)) || (v =? 100).

(** What every state the application can reach satisfies. *)
Definition app_inv {num : Type} (st : AppState num) : Prop :=
  Z.of_nat (length (gridData st)) = 32768 /\
  Forall valid_id (gridData st) /\
  (length (lights st) <= 10)%nat /\
  0 <= selectedColorIdx st < 16.

(** * Properties *)

(** ** Real-number instance: unfolding helpers *)

Lemma Rltb_true (a b : R) : Rltb a b = true <-> (a < b)%R.
Proof. unfold Rltb. destruct (Rlt_dec a b); split; intros; try easy. Qed.

Lemma Rltb_false (a b : R) : Rltb a b = false <-> (b <= a)%R.
Proof.
  unfold Rltb. destruct (Rlt_dec a b); split; intros; try easy; lra.
Qed.

Lemma Reqb_true (a b : R) : Reqb a b = true <-> a = b.
Proof. unfold Reqb. destruct (Req_dec_T a b); split; intros; easy. Qed.

Lemma Reqb_false (a b : R) : Reqb a b = false <-> a <> b.
Proof. unfold Reqb. destruct (Req_dec_T a b); split; intros; easy. Qed.

(** The decimal literals of the program, in the real instance. *)
Lemma dec_R (m : Z) (k : nat) :
  dec (num := R) m k = (IZR m / IZR (10 ^ Z.of_nat k))%R.
Proof. reflexivity. Qed.

Lemma dec_5_1 : dec (num := R) 5 1 = (1 / 2)%R.
Proof. rewrite dec_R. change (10 ^ Z.of_nat 1) with 10. lra. Qed.

Lemma dec_15_1 : dec (num := R) 15 1 = (3 / 2)%R.
Proof. rewrite dec_R. change (10 ^ Z.of_nat 1) with 10. lra. Qed.

Lemma dec_10_1 : dec (num := R) 10 1 = 1%R.
Proof. rewrite dec_R. change (10 ^ Z.of_nat 1) with 10. lra. Qed.

Lemma dec_2_1 : dec (num := R) 2 1 = (1 / 5)%R.
Proof. rewrite dec_R. change (10 ^ Z.of_nat 1) with 10. lra. Qed.

(** Decide one comparison of the real instance from the context. *)
Ltac rlt_true := apply Rltb_true; simpl; lra.
Ltac rlt_false := apply Rltb_false; simpl; lra.

(** ** Quality presets *)

(** C7. LOW maps to maxSteps 64 and scale 0.5, ULTRA to 1024 and 1.0; both
    values strictly increase from LOW to ULTRA, and toggling on from ULTRA
    gives back exactly the LOW configuration. *)
Theorem quality_low_ultra :
  let low := getQualityConfig (num := R) LOW in
  let ultra := getQualityConfig (num := R) ULTRA in
  maxSteps low = 64 /\ qscale low = (1 / 2)%R /\
  maxSteps ultra = 1024 /\ qscale ultra = 1%R /\
  maxSteps low < maxSteps ultra /\ (qscale low < qscale ultra)%R /\
  toggleQuality (toggleQuality (toggleQuality LOW)) = ULTRA /\
  getQualityConfig (num := R) (toggleQuality ULTRA) = low.
Proof.
  cbv zeta. unfold getQualityConfig. rewrite dec_5_1, dec_10_1. simpl.
  repeat split; try lra; try lia.
Qed.

(** The same presets in binary64. *)
Example quality_low_ultra_float :
  getQualityConfig (num := float) LOW = mkQuality 0.5%float 64 2 16 /\
  getQualityConfig (num := float) ULTRA = mkQuality 1%float 1024 32 128 /\
  PrimFloat.ltb 0.5 1 = true.
Proof. vm_compute. repeat split. Qed.

(** ** Light capacity *)

Lemma set_gridData_same {num : Type} (st : AppState num) :
  set_gridData st (gridData st) = st.
Proof. destruct st; reflexivity. Qed.

Lemma set_lights_same {num : Type} (st : AppState num) :
  set_lights st (lights st) = st.
Proof. destruct st; reflexivity. Qed.

(** C6. With ten lights present an add-light action changes nothing: the
    resulting state is the state before (no light added, no cell written),
    and the action returns normally. *)
Theorem add_light_at_capacity {num : Type} `{Num num}
    (st : AppState num) (hitPos nrm : Vec3 Z) :
  tool st = LIGHT ->
  length (lights st) = 10%nat ->
  handleBlockAction st hitPos nrm = st /\
  length (lights (handleBlockAction st hitPos nrm)) = 10%nat.
Proof.
  intros Ht Hl.
  assert (E : handleBlockAction st hitPos nrm = st).
  { unfold handleBlockAction, blockGridUpdate, lightsUpdate.
    rewrite Ht. rewrite set_gridData_same. rewrite Hl. simpl.
    apply set_lights_same. }
  rewrite E. auto.
Qed.

(** ** normalize *)

Lemma dot_self_R (a : Vec3 R) :
  dot a a = (v0 a * v0 a + v1 a * v1 a + v2 a * v2 a)%R.
Proof. reflexivity. Qed.

Lemma dot_self_pos (a : Vec3 R) :
  a <> V3 0%R 0%R 0%R -> (0 < dot a a)%R.
Proof.
  destruct a as [x y z]. intros Hne. rewrite dot_self_R. simpl.
  destruct (Req_dec_T x 0) as [Hx | Hx];
    [destruct (Req_dec_T y 0) as [Hy | Hy];
       [destruct (Req_dec_T z 0) as [Hz | Hz] |] |].
  - subst. congruence.
  - nra.
  - nra.
  - nra.
Qed.

(** C5, as stated, fails in the arithmetic the code runs in.  The vector
    (2^-600, 0, 0) is not zero and its Euclidean length 2^-600 is a binary64
    number, so the input divided by its length is (1, 0, 0).  But its square
    underflows to 0, the computed [len] is [=== 0], and [normalize] returns
    the zero vector.  For (2^600, 0, 0) the square overflows, [len] is
    Infinity, and the result is again the zero vector. *)
Lemma normalize_nonzero_to_zero :
  let tiny := 0x1p-600%float in
  let huge := 0x1p+600%float in
  neqb tiny (of_Z 0) = false /\
  (tiny / tiny)%num = 1%float /\
  nsqrt (dot (V3 tiny 0%float 0%float) (V3 tiny 0%float 0%float)) = 0%float /\
  normalize (V3 tiny 0%float 0%float) = V3 0%float 0%float 0%float /\
  neqb huge (of_Z 0) = false /\
  (huge / huge)%num = 1%float /\
  nsqrt (dot (V3 huge 0%float 0%float) (V3 huge 0%float 0%float))
    = infinity /\
  normalize (V3 huge 0%float 0%float) = V3 0%float 0%float 0%float.
Proof. vm_compute. repeat split. Qed.

(** C5, amended. [normalize] of the zero vector is the zero vector, with
    no NaN, in exact arithmetic, in binary64 (also from negative zeros) and
    in binary32.  For every input and every number model, with [l] the
    length as the code computes it, [sqrt (a0*a0 + a1*a1 + a2*a2)]: when
    [l === 0] the result is the zero vector, otherwise it is the input
    divided componentwise by [l].  In exact arithmetic [l] is positive for
    every nonzero input, which is then divided by its Euclidean length. *)
Theorem normalize_zero_and_computed_length :
  normalize (V3 0%R 0%R 0%R) = V3 0%R 0%R 0%R /\
  normalize (V3 0%float 0%float 0%float) = V3 0%float 0%float 0%float /\
  normalize (V3 (-0)%float (-0)%float (-0)%float)
    = V3 0%float 0%float 0%float /\
  normalize (V3 (S754_zero false) (S754_zero false) (S754_zero false))
    = V3 (S754_zero false) (S754_zero false) (S754_zero false) /\
  (forall (num : Type) (N : Num num) (a : Vec3 num),
     let l := nsqrt (v0 a * v0 a + v1 a * v1 a + v2 a * v2 a)%num in
     (neqb l (of_Z 0) = true ->
        normalize a = V3 (of_Z 0) (of_Z 0) (of_Z 0)) /\
     (neqb l (of_Z 0) = false ->
        normalize a = V3 (v0 a / l)%num (v1 a / l)%num (v2 a / l)%num)) /\
  (forall a : Vec3 R,
     a <> V3 0%R 0%R 0%R ->
     let l := sqrt (v0 a * v0 a + v1 a * v1 a + v2 a * v2 a) in
     (0 < l)%R /\ normalize a = V3 (v0 a / l)%R (v1 a / l)%R (v2 a / l)%R).
Proof.
  split; [| split; [| split; [| split; [| split]]]].
  - unfold normalize. rewrite dot_self_R. simpl.
    replace (0 * 0 + 0 * 0 + 0 * 0)%R with 0%R by lra.
    rewrite sqrt_0.
    assert (E : Reqb 0 0 = true) by (apply Reqb_true; reflexivity).
    rewrite E. reflexivity.
  - vm_compute. reflexivity.
  - vm_compute. reflexivity.
  - vm_compute. reflexivity.
  - intros num N a l. unfold normalize.
    change (nsqrt (dot a a)) with l.
    split; intros ->; reflexivity.
  - intros a Hne l.
    assert (Hl : (0 < l)%R).
    { unfold l. rewrite <- dot_self_R. apply sqrt_lt_R0.
      apply dot_self_pos; assumption. }
    split; [exact Hl |].
    unfold normalize. rewrite dot_self_R. simpl. fold l.
    assert (E : Reqb l 0 = false) by (apply Reqb_false; lra).
    rewrite E. reflexivity.
Qed.

(** The nonzero case in binary64, where 3-4-5 is exact, and in exact
    arithmetic. *)
Lemma normalize_zero_and_computed_length_witness :
  normalize (V3 3%float 0%float 4%float)
    = V3 (3 / 5)%float (0 / 5)%float (4 / 5)%float /\
  (V3 3%R 0%R 4%R <> V3 0%R 0%R 0%R /\
   normalize (V3 3%R 0%R 4%R) =
     V3 (3 / sqrt (3 * 3 + 0 * 0 + 4 * 4))%R
        (0 / sqrt (3 * 3 + 0 * 0 + 4 * 4))%R
        (4 / sqrt (3 * 3 + 0 * 0 + 4 * 4))%R).
Proof.
  assert (Hne : V3 3%R 0%R 4%R <> V3 0%R 0%R 0%R).
  { intros E. injection E as E0 _. lra. }
  destruct normalize_zero_and_computed_length as (_ & _ & _ & _ & G & E).
  split.
  - exact (proj2 (G float FloatNum (V3 3%float 0%float 4%float)) eq_refl).
  - split; [exact Hne |]. exact (proj2 (E _ Hne)).
Defined.

(** ** Sphere intersection *)

(** The CPU routine is the specified root policy, for every number model. *)
Lemma intersectSphere_follows_policy {num : Type} `{Num num}
    (ro rd center : Vec3 num) (radius : num) :
  let oc := sub ro center in
  let b := dot oc rd in
  let cc := (dot oc oc - radius * radius)%num in
  intersectSphere ro rd center radius =
    spec_sphere_policy b (b * b - cc)%num.
Proof. reflexivity. Qed.

(** In exact arithmetic, a CPU ray that starts strictly inside the sphere
    gets the far root, and the far root is positive. *)
Lemma intersectSphere_inside (ro rd center : Vec3 R) (radius : R) :
  let oc := sub ro center in
  let b := dot oc rd in
  let h := (b * b - (dot oc oc - radius * radius))%R in
  (dot oc oc < radius * radius)%R ->
  intersectSphere ro rd center radius = Some (- b + sqrt h)%R /\
  (0 < - b + sqrt h)%R.
Proof.
  intros oc b h Hin.
  assert (Hh : (b * b < h)%R) by (unfold h; lra).
  assert (Hb2 : (0 <= b * b)%R) by nra.
  assert (Hs : (Rabs b < sqrt h)%R).
  { rewrite <- (sqrt_Rsqr_abs b). unfold Rsqr.
    apply sqrt_lt_1_alt. lra. }
  assert (Hlo : (- sqrt h < b < sqrt h)%R).
  { apply Rabs_def2 in Hs. lra. }
  split; [| lra].
  change (intersectSphere ro rd center radius)
    with (if Rltb h 0 then None
          else if Rltb 0 (- b - sqrt h) then Some (- b - sqrt h)%R
          else if Rltb 0 (- b + sqrt h) then Some (- b + sqrt h)%R
          else None).
  assert (E1 : Rltb h 0 = false) by (apply Rltb_false; lra).
  assert (E2 : Rltb 0 (- b - sqrt h) = false) by (apply Rltb_false; lra).
  assert (E3 : Rltb 0 (- b + sqrt h) = true) by (apply Rltb_true; lra).
  rewrite E1, E2, E3. reflexivity.
Qed.

(** The shader routine has no far-root branch: from strictly inside the
    sphere its result is negative, which its callers read as a miss. *)
Lemma intersectSphere_glsl_inside (ro rd center : Vec3 R) (radius : R) :
  let oc := sub ro center in
  let b := dot oc rd in
  let h := (b * b - (dot oc oc - radius * radius))%R in
  (dot oc oc < radius * radius)%R ->
  intersectSphere_glsl ro rd center radius = (- b - sqrt h)%R /\
  glsl_sphere_result (intersectSphere_glsl ro rd center radius) = None.
Proof.
  intros oc b h Hin.
  assert (Hh : (b * b < h)%R) by (unfold h; lra).
  assert (Hb2 : (0 <= b * b)%R) by nra.
  assert (Hs : (Rabs b < sqrt h)%R).
  { rewrite <- (sqrt_Rsqr_abs b). unfold Rsqr.
    apply sqrt_lt_1_alt. lra. }
  assert (Hlo : (- sqrt h < b < sqrt h)%R).
  { apply Rabs_def2 in Hs. lra. }
  assert (E : intersectSphere_glsl ro rd center radius = (- b - sqrt h)%R).
  { change (intersectSphere_glsl ro rd center radius)
      with (if Rltb h 0 then (-1)%R else (- b - sqrt h)%R).
    assert (E1 : Rltb h 0 = false) by (apply Rltb_false; lra).
    rewrite E1. reflexivity. }
  split; [exact E |].
  rewrite E.
  change (glsl_sphere_result (- b - sqrt h)%R)
    with (if Rltb 0 (- b - sqrt h) then Some (- b - sqrt h)%R else None).
  assert (E2 : Rltb 0 (- b - sqrt h) = false) by (apply Rltb_false; lra).
  rewrite E2. reflexivity.
Qed.

(** C2. A ray that starts at the centre of the shader's sphere
    (centre (16,6,16), radius 4), looking along +z, in binary64: the root
    policy and the CPU routine give the far root 4; the shader routine
    returns the near root -4, which is not a hit for its callers. *)
Theorem sphere_policy_glsl_origin_inside :
  let ro := V3 16%float 6%float 16%float in
  let rd := V3 0%float 0%float 1%float in
  let oc := sub ro sphereCenter in
  let b := dot oc rd in
  let h := (b * b - (dot oc oc - sphereRadius * sphereRadius))%num in
  spec_sphere_policy b h = Some 4%float /\
  intersectSphere ro rd sphereCenter sphereRadius = Some 4%float /\
  intersectSphere_glsl ro rd sphereCenter sphereRadius = (-4)%float /\
  glsl_sphere_result
    (intersectSphere_glsl ro rd sphereCenter sphereRadius) = None.
Proof. vm_compute. repeat split. Qed.

(** The shader's side of the same run in binary32, the shader's own
    format: the values are small integers, exact there as well. *)
Example sphere_glsl_origin_inside_float32 :
  let ro : Vec3 spec_float := V3 (of_Z 16) (of_Z 6) (of_Z 16) in
  let rd : Vec3 spec_float := V3 (of_Z 0) (of_Z 0) (of_Z 1) in
  intersectSphere_glsl ro rd sphereCenter sphereRadius = of_Z (-4) /\
  glsl_sphere_result
    (intersectSphere_glsl ro rd sphereCenter sphereRadius) = None.
Proof. vm_compute. split; reflexivity. Qed.

(** ** Tie-breaking of the DDA step *)

Lemma dda_step_R (p : Stride R) (s : Ray R) :
  dda_step p s =
    if Rltb (sideDistX s) (sideDistY s) then
      if Rltb (sideDistX s) (sideDistZ s) then advanceX p s
      else advanceZ p s
    else
      if Rltb (sideDistY s) (sideDistZ s) then advanceY p s
      else advanceZ p s.
Proof. reflexivity. Qed.

(** Both code paths take the same step, for every number model. *)
Lemma glsl_step_dda_step {num : Type} `{Num num}
    (p : Stride num) (s : Ray num) :
  glsl_step p s = dda_step p s.
Proof. reflexivity. Qed.

(** C3, as stated, fails: for the ray from (0.5,0.5,0.5) with direction
    (1,1,0.25) the first iteration sees sideDistX = sideDistY = 0.5 below
    sideDistZ = 2, and the code crosses the Y boundary, not the X one: the
    next cell is (0,1,0). *)
Lemma tie_x_y_advances_y :
  let ro := V3 (1 / 2)%R (1 / 2)%R (1 / 2)%R in
  let rd := V3 1%R 1%R (1 / 4)%R in
  let p := cpu_stride rd in
  let s := cpu_start ro rd 0 0 0 in
  sideDistX s = sideDistY s /\
  (sideDistX s < sideDistZ s)%R /\
  dda_step p s <> advanceX p s /\
  dda_step p s = advanceY p s /\
  glsl_step p s = advanceY p s /\
  (cellX (dda_step p s), cellY (dda_step p s), cellZ (dda_step p s))
    = (0, 1, 0).
Proof.
  intros ro rd p s.
  assert (H01 : Rltb 0 1 = true) by rlt_true.
  assert (H04 : Rltb 0 (1 / 4) = true) by rlt_true.
  assert (A1 : Rabs (1 / 1) = 1%R) by (rewrite Rabs_pos_eq; lra).
  assert (A4 : Rabs (1 / (1 / 4)) = 4%R) by (rewrite Rabs_pos_eq; lra).
  assert (Ex : sideDistX s = (1 / 2)%R).
  { unfold s, cpu_start, cpu_stride, ro, rd. simpl.
    rewrite H01, A1. lra. }
  assert (Ey : sideDistY s = (1 / 2)%R).
  { unfold s, cpu_start, cpu_stride, ro, rd. simpl.
    rewrite H01, A1. lra. }
  assert (Ez : sideDistZ s = 2%R).
  { unfold s, cpu_start, cpu_stride, ro, rd. simpl.
    rewrite H04, A4. lra. }
  assert (Sy : stepY p = 1).
  { unfold p, cpu_stride, rd. simpl. rewrite H01. reflexivity. }
  assert (Sx : stepX p = 1).
  { unfold p, cpu_stride, rd. simpl. rewrite H01. reflexivity. }
  assert (E : dda_step p s = advanceY p s).
  { rewrite dda_step_R, Ex, Ey, Ez.
    assert (F1 : Rltb (1 / 2) (1 / 2) = false) by rlt_false.
    assert (F2 : Rltb (1 / 2) 2 = true) by rlt_true.
    rewrite F1, F2. reflexivity. }
  split; [congruence |].
  split; [lra |].
  split.
  - rewrite E. intros D.
    assert (D' : cellX (advanceY p s) = cellX (advanceX p s))
      by (rewrite D; reflexivity).
    unfold advanceX, advanceY in D'. cbn [cellX] in D'.
    rewrite Sx in D'. unfold s in D'. simpl in D'. lia.
  - split; [exact E |].
    split; [exact E |].
    rewrite E. unfold advanceY. cbn [cellX cellY cellZ].
    rewrite Sy. reflexivity.
Qed.

(** The same tie end to end, in binary64: with voxel 1 at (1,0,0) and
    voxel 2 at (0,1,0) both paths report voxel 2. *)
Example tie_x_y_hits_y_cell :
  let grid := grid_set (oneVoxel 1 0 0 1) (0 + 1 * 32 + 0 * 32 * 32) 2 in
  let ro := V3 0.5%float 0.5%float 0.5%float in
  let rd := V3 1%float 1%float 0.25%float in
  intersectVoxels ro rd grid 32 =
    Some (mkHit (V3 0 1 0) (V3 0 (-1) 0) 2 0.5%float) /\
  intersectVoxels_glsl 64 ro rd grid =
    mkVoxelHit 0.5%float (V3 0 (-1) 0) 2.
Proof. vm_compute. split; reflexivity. Qed.

(** *** The comparisons of the three number models *)

Lemma R_order : NumOrder R.
Proof.
  split; cbn [nlt neqb RNum].
  - intros a b E. apply Reqb_true in E. apply Rltb_false. lra.
  - intros a b E. apply Rltb_true in E. apply Rltb_false. lra.
  - intros a b c E. apply Reqb_true in E. subst. reflexivity.
  - intros a b c E. apply Reqb_true in E. subst. reflexivity.
Qed.

Lemma SFcompare_antisym (a b : spec_float) :
  SFcompare b a = option_map CompOpp (SFcompare a b).
Proof.
  destruct a as [sa | sa | | sa ma ea], b as [sb | sb | | sb mb eb];
    try reflexivity;
    try (destruct sa; reflexivity);
    try (destruct sb; reflexivity);
    try (destruct sa, sb; reflexivity).
  assert (Hm : Pos.compare_cont Eq mb ma
               = CompOpp (Pos.compare_cont Eq ma mb))
    by (symmetry; apply (Pos.compare_cont_antisym ma mb Eq)).
  cbn [SFcompare option_map].
  rewrite (Z.compare_antisym ea eb), Hm.
  destruct sa, sb, (ea ?= eb), (Pos.compare_cont Eq ma mb); reflexivity.
Qed.

Lemma SFcompare_Eq (a b : spec_float) :
  SFcompare a b = Some Eq ->
  forall c, SFcompare a c = SFcompare b c /\ SFcompare c a = SFcompare c b.
Proof.
  intros E.
  assert (Hc : forall c, SFcompare a c = SFcompare b c).
  { destruct a as [sa | sa | | sa ma ea], b as [sb | sb | | sb mb eb];
      try discriminate;
      try (destruct sa; discriminate);
      try (destruct sb; discriminate).
    - intros [sc | sc | | sc mc ec]; reflexivity.
    - destruct sa, sb; try discriminate; reflexivity.
    - cbn [SFcompare] in E.
      assert (ea = eb /\ ma = mb /\ sa = sb) as (-> & -> & ->).
      { destruct sa, sb; try discriminate;
          destruct (ea ?= eb) eqn:Ee; try discriminate;
          apply Z.compare_eq in Ee;
          destruct (Pos.compare_cont Eq ma mb) eqn:Em; try discriminate;
          apply Pos.compare_eq in Em; auto. }
      reflexivity. }
  intros c. split; [apply Hc |].
  rewrite (SFcompare_antisym a c), (SFcompare_antisym b c), Hc.
  reflexivity.
Qed.

Lemma SF_order_laws :
  (forall a b, SFeqb a b = true -> SFltb a b = false) /\
  (forall a b, SFltb a b = true -> SFltb b a = false) /\
  (forall a b c, SFeqb a b = true -> SFltb a c = SFltb b c) /\
  (forall a b c, SFeqb a b = true -> SFltb c a = SFltb c b).
Proof.
  unfold SFeqb, SFltb. repeat split.
  - intros a b. destruct (SFcompare a b) as [[] |]; congruence.
  - intros a b. rewrite (SFcompare_antisym a b).
    destruct (SFcompare a b) as [[] |]; cbn; congruence.
  - intros a b c E.
    destruct (SFcompare a b) as [[] |] eqn:C; try discriminate.
    rewrite (proj1 (SFcompare_Eq a b C c)). reflexivity.
  - intros a b c E.
    destruct (SFcompare a b) as [[] |] eqn:C; try discriminate.
    rewrite (proj2 (SFcompare_Eq a b C c)). reflexivity.
Qed.

Lemma float32_order : NumOrder spec_float.
Proof.
  destruct SF_order_laws as (L1 & L2 & L3 & L4).
  split; cbn [nlt neqb Float32Num]; assumption.
Qed.

Lemma float_order : NumOrder float.
Proof.
  destruct SF_order_laws as (L1 & L2 & L3 & L4).
  split; cbn [nlt neqb FloatNum]; intros *;
    rewrite ?FloatAxioms.eqb_spec, ?FloatAxioms.ltb_spec; auto.
Qed.

(** The rule for ties follows from the laws of the comparisons. *)
Lemma tie_rule_of_order {num : Type} `{Num num} :
  NumOrder num -> tie_rule num.
Proof.
  intros [L1 L2 L3 L4] p s crossX crossY crossZ.
  change crossX with (advanceX p s).
  change crossY with (advanceY p s).
  change crossZ with (advanceZ p s).
  unfold dda_step.
  split; [| split; [| split]].
  - intros E. rewrite (L1 _ _ E). reflexivity.
  - intros E.
    destruct (sideDistX s <? sideDistY s)%num eqn:Exy; [| reflexivity].
    rewrite (L1 _ _ E).
    rewrite (L3 _ _ (sideDistY s) E) in Exy.
    rewrite (L2 _ _ Exy). reflexivity.
  - intros E. rewrite (L1 _ _ E).
    rewrite <- (L4 _ _ (sideDistX s) E).
    destruct (sideDistX s <? sideDistY s)%num; reflexivity.
  - reflexivity.
Qed.

(** C3, amended. In exact arithmetic, in binary64 and in binary32 alike:
    when two boundary distances are exactly equal, the later axis of the
    pair (in the order X, Y, Z) is preferred and X never wins; the step is
    determined by the three values, and the shader takes the same step as
    the CPU.  A NaN boundary distance is equal to nothing and is not a
    tie. *)
Theorem tie_break_order :
  tie_rule R /\ tie_rule float /\ tie_rule spec_float.
Proof.
  split; [| split].
  - exact (tie_rule_of_order R_order).
  - exact (tie_rule_of_order float_order).
  - exact (tie_rule_of_order float32_order).
Qed.

(** The rule at work in binary64: X and Y tied at 0.5 below Z = 2, the
    step crosses Y. *)
Lemma tie_break_order_witness :
  let p := mkStride 1 1 1 1%float 1%float 4%float in
  let s := mkRay 0 0 0 0.5%float 0.5%float 2%float (V3 0 0 0) 0%float in
  dda_step p s
  = mkRay 0 1 0 0.5%float 1.5%float 2%float (V3 0 (-1) 0) 0.5%float.
Proof.
  intros p s.
  exact (proj1 (proj1 (proj2 tie_break_order) p s) eq_refl).
Defined.

(** A NaN boundary distance is no tie, and the rule above is silent on it:
    with sideDistY = NaN (0 * Infinity) binary64 crosses Z both when
    sideDistX = 1 < sideDistZ = 2 and when sideDistX = 2 > sideDistZ = 1;
    with sideDistZ = NaN it crosses Z as well. *)
Example nan_is_no_tie :
  let p := mkStride 1 1 1 1%float 1%float 1%float in
  let s1 := mkRay 0 0 0 1%float nan 2%float (V3 0 0 0) 0%float in
  let s2 := mkRay 0 0 0 2%float nan 1%float (V3 0 0 0) 0%float in
  let s3 := mkRay 0 0 0 1%float 2%float nan (V3 0 0 0) 0%float in
  cell_of (dda_step p s1) = V3 0 0 1 /\
  cell_of (dda_step p s2) = V3 0 0 1 /\
  cell_of (dda_step p s3) = V3 0 0 1.
Proof. vm_compute. repeat split. Qed.

(** ** Rays with a zero direction component *)

(** C4. A ray straight down from (8.5, 10, 8), in binary64.  The z
    component of the direction is 0 and the origin's z is an integer, so the
    CPU computes sideDistZ = 0 * Infinity = NaN; every comparison with it is
    false and the Z branch is taken on each iteration.  With a voxel at
    (8,10,5), beside the ray, the CPU reports that voxel with distance NaN;
    with the voxel at (8,0,8), below the ray, it reports a miss.  The shader
    formula gives tMax.z = 0.5 * Infinity = Infinity and finds the voxel
    below at distance 9. *)
Theorem cpu_zero_direction_nan :
  let ro := V3 8.5%float 10%float 8%float in
  let rd := V3 0%float (-1)%float 0%float in
  option_map (fun h => (pos h, hit_normal h, voxelId h, is_nan (t h)))
    (intersectVoxels ro rd (oneVoxel 8 10 5 9) 32)
    = Some (V3 8 10 5, V3 0 0 1, 9, true) /\
  is_nan (sideDistZ (cpu_start ro rd 8 10 8)) = true /\
  intersectVoxels ro rd (oneVoxel 8 0 8 9) 32 = None /\
  intersectVoxels_glsl 64 ro rd (oneVoxel 8 0 8 9)
    = mkVoxelHit 9%float (V3 0 1 0) 9.
Proof. vm_compute. repeat split. Qed.

(** The shader's side of the same run in binary32, the shader's own
    format: tMax.z = 0.5 * Infinity = Infinity there too, and the voxel
    below is found at distance 9. *)
Example glsl_zero_direction_float32 :
  let ro : Vec3 spec_float := V3 (dec 85 1) (of_Z 10) (of_Z 8) in
  let rd : Vec3 spec_float := V3 (of_Z 0) (of_Z (-1)) (of_Z 0) in
  sideDistZ (glsl_start ro rd 8 10 8) = S754_infinity false /\
  intersectVoxels_glsl 64 ro rd (oneVoxel 8 0 8 9)
    = mkVoxelHit (of_Z 9) (V3 0 1 0) 9.
Proof. vm_compute. split; reflexivity. Qed.

(** ** Grid reads and writes *)

Lemma grid_get_set_eq (grid : list Z) (i v : Z) :
  0 <= i < Z.of_nat (length grid) ->
  grid_get (grid_set grid i v) i = Some (v mod 256).
Proof.
  intros Hi. unfold grid_get, grid_set.
  destruct (Z.leb_spec 0 i); [| lia].
  apply list_lookup_insert_eq. lia.
Qed.

Lemma grid_get_set_ne (grid : list Z) (i j v : Z) :
  i <> j -> grid_get (grid_set grid i v) j = grid_get grid j.
Proof.
  intros Hne. unfold grid_get, grid_set.
  destruct (Z.leb_spec 0 i); [| reflexivity].
  destruct (Z.leb_spec 0 j); [| reflexivity].
  apply list_lookup_insert_ne. lia.
Qed.

Lemma grid_set_length (grid : list Z) (i v : Z) :
  length (grid_set grid i v) = length grid.
Proof.
  unfold grid_set. destruct (0 <=? i); [apply length_insert | reflexivity].
Qed.

Lemma in_grid_spec (c : Vec3 Z) :
  in_grid c = true <->
  0 <= v0 c < 32 /\ 0 <= v1 c < 32 /\ 0 <= v2 c < 32.
Proof. unfold in_grid, GRID_SIZE. lia. Qed.

Lemma idx_range (c : Vec3 Z) : in_grid c = true -> 0 <= idx c < 32768.
Proof. rewrite in_grid_spec. unfold idx, GRID_SIZE. lia. Qed.

Lemma idx_inj (a b : Vec3 Z) :
  in_grid a = true -> in_grid b = true -> idx a = idx b -> a = b.
Proof.
  rewrite !in_grid_spec. unfold idx, GRID_SIZE.
  destruct a as [a0 a1 a2], b as [b0 b1 b2]. simpl. intros Ha Hb E.
  assert (a0 = b0 /\ a1 = b1 /\ a2 = b2) as (-> & -> & ->) by lia.
  reflexivity.
Qed.

(** ** Block tool *)

Lemma blockGridUpdate_block {num : Type} `{Num num}
    (st : AppState num) (h n : Vec3 Z) (prev : list Z) :
  tool st = BLOCK ->
  blockGridUpdate st h n prev =
    if in_grid (cell_add h n) then
      if (of_Z 1 <? camera_distance st (cell_add h n))%num
      then grid_set prev (idx (cell_add h n)) (selected_id st)
      else prev
    else prev.
Proof. intros Ht. unfold blockGridUpdate. rewrite Ht. reflexivity. Qed.


(** In exact arithmetic [camera_within_one] is the Euclidean test. *)
Lemma camera_within_one_R (st : AppState R) (c : Vec3 Z) :
  camera_within_one st c <->
  (sqrt ((IZR (v0 c) + 1 / 2 - v0 (cameraPos st)) ^ 2
         + (IZR (v1 c) + 1 / 2 - v1 (cameraPos st)) ^ 2
         + (IZR (v2 c) + 1 / 2 - v2 (cameraPos st)) ^ 2) <= 1)%R.
Proof.
  unfold camera_within_one, camera_distance, len.
  rewrite dot_self_R. unfold sub, add, of_cell. cbn [v0 v1 v2].
  rewrite dec_5_1. cbn [nlt nsqrt nadd nsub nmul of_Z RNum].
  rewrite Rltb_false.
  match goal with
  | |- (sqrt ?a <= 1)%R <-> (sqrt ?b <= 1)%R =>
      replace a with b by ring
  end.
  reflexivity.
Qed.


(** The same edit evaluated: the cell above the floor cell (16,0,16) is
    written with palette id 1. *)
Example block_tool_edit_run :
  let st := sceneAt (num := float) (V3 16 8 4)%float BLOCK in
  let st' := handleBlockAction st (V3 16 0 16) (V3 0 1 0) in
  grid_get (gridData st) (idx (V3 16 1 16)) = Some 0 /\
  grid_get (gridData st') (idx (V3 16 1 16)) = Some 1.
Proof. vm_compute. split; reflexivity. Qed.

Lemma add_light_at_capacity_witness :
  let st := mkApp (num := float) initialGrid tenLights (V3 16 8 4)%float
              0%float 0%float 0 false LIGHT in
  handleBlockAction st (V3 16 0 16) (V3 0 1 0) = st /\
  length (lights (handleBlockAction st (V3 16 0 16) (V3 0 1 0))) = 10%nat.
Proof.
  intros st.
  exact (add_light_at_capacity st (V3 16 0 16) (V3 0 1 0) eq_refl eq_refl).
Defined.

(** Below capacity the light is appended. *)
Example add_light_below_capacity :
  let st := sceneAt (num := float) (V3 16 8 4)%float LIGHT in
  length (lights (handleBlockAction st (V3 16 0 16) (V3 0 1 0))) = 3%nat.
Proof. vm_compute. reflexivity. Qed.

(** ** Clicks on light markers *)

Lemma filter_index_past {A : Type} (l : list A) (lightIndex j : Z) :
  lightIndex < j -> filter_index lightIndex j l = l.
Proof.
  revert j. induction l as [| b l IHl]; intros j Hj; simpl; [reflexivity |].
  destruct (Z.eqb_spec j lightIndex); [lia |].
  f_equal. apply IHl. lia.
Qed.

Lemma filter_index_delete {A : Type} (l : list A) (lightIndex i : Z) :
  i <= lightIndex ->
  filter_index lightIndex i l = delete (Z.to_nat (lightIndex - i)) l.
Proof.
  revert i. induction l as [| a l IH]; intros i Hi; simpl.
  - reflexivity.
  - destruct (Z.eqb_spec i lightIndex) as [-> | Hne].
    + replace (lightIndex - lightIndex) with 0 by lia. simpl.
      apply filter_index_past. lia.
    + rewrite IH by lia.
      replace (Z.to_nat (lightIndex - i))
        with (S (Z.to_nat (lightIndex - (i + 1)))) by lia.
      reflexivity.
Qed.

Lemma lightProbe_idx {num : Type} `{Num num}
    (camPos camDir : Vec3 num) (acc : Z * num) (i : Z) (l : Light num) :
  fst (lightProbe camPos camDir acc i l) = fst acc \/
  fst (lightProbe camPos camDir acc i l) = i.
Proof.
  unfold lightProbe.
  destruct (intersectSphere camPos camDir (position l) (dec 2 1));
    [| left; reflexivity].
  destruct (_ && _); [right | left]; reflexivity.
Qed.

(** The index left by [lights.forEach] is the initial -1 or the index of
    one of the lights. *)
Lemma lightsForEach_idx {num : Type} `{Num num}
    (camPos camDir : Vec3 num) (ls : list (Light num)) :
  forall (acc : Z * num) (i : Z),
    0 <= i ->
    fst acc = -1 \/ 0 <= fst acc < i ->
    fst (lightsForEach camPos camDir acc i ls) = -1 \/
    0 <= fst (lightsForEach camPos camDir acc i ls)
      < i + Z.of_nat (length ls).
Proof.
  induction ls as [| l ls IH]; intros acc i Hi Hacc; simpl.
  - destruct Hacc; [left; assumption | right; lia].
  - replace (i + Z.of_nat (S (length ls)))
      with ((i + 1) + Z.of_nat (length ls)) by lia.
    apply IH; [lia |].
    destruct (lightProbe_idx camPos camDir acc i l) as [E | E];
      rewrite E; [destruct Hacc; [left; assumption | right; lia] | right; lia].
Qed.

(** A click resolves to a light only through the guarded branch: some light
    was hit, and strictly nearer than the voxel hit (or than 1000). *)
Lemma resolvePick_light_inv {num : Type} `{Num num}
    (Math_cos Math_sin : num -> num) (st : AppState num) (i : Z) :
  resolvePick Math_cos Math_sin st = PickLight i ->
  let camDir := camDirOf Math_cos Math_sin (cameraYaw st) (cameraPitch st) in
  let r := lightsForEach (cameraPos st) camDir (-1, of_Z 100) 0 (lights st) in
  let voxelDist :=
    match intersectVoxels (cameraPos st) camDir (gridData st) GRID_SIZE with
    | Some h => t h
    | None => of_Z 1000
    end in
  fst r = i /\ i <> -1 /\ (snd r <? voxelDist)%num = true.
Proof.
  intros Hp camDir r voxelDist. unfold resolvePick in Hp.
  fold camDir in Hp. fold r in Hp. fold voxelDist in Hp.
  clearbody r. destruct r as [ci md]. cbn [fst snd].
  destruct (Z.eqb_spec ci (-1)) as [E | E]; cbn [negb andb] in Hp.
  - destruct (intersectVoxels _ _ _ _); discriminate.
  - destruct (md <? voxelDist)%num.
    + injection Hp as <-. auto.
    + destruct (intersectVoxels _ _ _ _); discriminate.
Qed.

(** C10. When a click resolves to a light marker, the BLOCK and LIGHT tools
    leave the whole state as it was; the DELETE tool leaves the grid as it
    was and removes exactly the light at the resolved index, which is a
    valid index of the collection. *)
Theorem light_pick_frame {num : Type} `{Num num}
    (Math_cos Math_sin : num -> num) (st : AppState num) (i : Z) :
  resolvePick Math_cos Math_sin st = PickLight i ->
  let st' := performRaycastAction Math_cos Math_sin st in
  (tool st = BLOCK \/ tool st = LIGHT -> st' = st) /\
  (tool st = DELETE ->
     gridData st' = gridData st /\
     0 <= i < Z.of_nat (length (lights st)) /\
     lights st' = delete (Z.to_nat i) (lights st) /\
     Z.of_nat (length (lights st')) = Z.of_nat (length (lights st)) - 1).
Proof.
  intros Hp st'.
  assert (Est : st' = handleLightClick st i).
  { unfold st', performRaycastAction. rewrite Hp. reflexivity. }
  destruct (resolvePick_light_inv _ _ _ _ Hp) as (Hi & Hne & _).
  assert (Hrange : 0 <= i < Z.of_nat (length (lights st))).
  { pose proof (lightsForEach_idx (cameraPos st)
        (camDirOf Math_cos Math_sin (cameraYaw st) (cameraPitch st))
        (lights st) (-1, of_Z 100) 0 (Z.le_refl 0) (or_introl eq_refl))
      as Hr.
    rewrite Hi in Hr. lia. }
  split.
  - intros [Ht | Ht]; rewrite Est; unfold handleLightClick; rewrite Ht;
      reflexivity.
  - intros Ht. rewrite Est. unfold handleLightClick. rewrite Ht.
    cbn [gridData lights set_lights].
    rewrite filter_index_delete by lia.
    replace (i - 0) with i by lia.
    repeat split; try lia.
    rewrite length_delete; [lia |].
    apply lookup_lt_is_Some. lia.
Qed.

Lemma light_pick_frame_witness :
  let st := sceneAt (num := float) (V3 16 12 4)%float DELETE in
  resolvePick cos_at_0 sin_at_0 st = PickLight 0 /\
  (gridData (performRaycastAction cos_at_0 sin_at_0 st) = gridData st /\
   0 <= 0 < Z.of_nat (length (lights st)) /\
   lights (performRaycastAction cos_at_0 sin_at_0 st)
     = delete (Z.to_nat 0) (lights st) /\
   Z.of_nat (length (lights (performRaycastAction cos_at_0 sin_at_0 st)))
     = Z.of_nat (length (lights st)) - 1).
Proof.
  intros st.
  assert (Hp : resolvePick cos_at_0 sin_at_0 st = PickLight 0)
    by (vm_compute; reflexivity).
  split; [exact Hp |].
  exact (proj2 (light_pick_frame cos_at_0 sin_at_0 st 0 Hp) eq_refl).
Defined.

(** The BLOCK tool on the same click, evaluated: nothing changes. *)
Example light_pick_block_tool :
  let st := sceneAt (num := float) (V3 16 12 4)%float BLOCK in
  let st' := performRaycastAction cos_at_0 sin_at_0 st in
  resolvePick cos_at_0 sin_at_0 st = PickLight 0 /\
  bool_decide (gridData st' = gridData st) = true /\
  length (lights st') = 2%nat.
Proof. vm_compute. repeat split. Qed.

(** ** The cell in front of a hit is empty *)

Lemma out_of_bounds_in_grid {num : Type} (s : Ray num) :
  out_of_bounds GRID_SIZE s = negb (in_grid (cell_of s)).
Proof.
  unfold out_of_bounds, in_grid, cell_of, GRID_SIZE. cbn [v0 v1 v2]. lia.
Qed.

Lemma cell_index_idx {num : Type} (s : Ray num) :
  cell_index GRID_SIZE s = idx (cell_of s).
Proof. reflexivity. Qed.

(** Whatever branch the step takes, the new cell plus the new normal is
    the cell just left. *)
Lemma dda_step_back {num : Type} `{Num num} (p : Stride num) (s : Ray num) :
  cell_add (cell_of (dda_step p s)) (normal (dda_step p s)) = cell_of s.
Proof.
  unfold dda_step.
  destruct (sideDistX s <? sideDistY s)%num;
    [destruct (sideDistX s <? sideDistZ s)%num
    | destruct (sideDistY s <? sideDistZ s)%num];
    unfold cell_add, cell_of, advanceX, advanceY, advanceZ;
    cbn [cellX cellY cellZ normal v0 v1 v2]; f_equal; lia.
Qed.

Lemma voxel_loop_hit_inv {num : Type} `{Num num}
    (grid : list Z) (p : Stride num) (c0 : Vec3 Z) :
  forall (fuel : nat) (s : Ray num) (h : Hit num),
    voxel_loop grid GRID_SIZE p fuel s = Some h ->
    entered_from_free grid c0 (cell_of s) (normal s) ->
    entered_from_free grid c0 (pos h) (hit_normal h) /\
    in_grid (pos h) = true /\
    grid_get grid (idx (pos h)) = Some (voxelId h) /\
    0 < voxelId h.
Proof.
  induction fuel as [| fuel IH]; intros s h Hrun Hs; simpl in Hrun.
  - discriminate.
  - assert (Hnext : cell_free grid (cell_of s) ->
                    voxel_loop grid GRID_SIZE p fuel (dda_step p s) = Some h ->
                    entered_from_free grid c0 (pos h) (hit_normal h) /\
                    in_grid (pos h) = true /\
                    grid_get grid (idx (pos h)) = Some (voxelId h) /\
                    0 < voxelId h).
    { intros Hfree Hrun'. apply (IH _ _ Hrun').
      right. rewrite dda_step_back. exact Hfree. }
    rewrite out_of_bounds_in_grid in Hrun.
    destruct (in_grid (cell_of s)) eqn:Hin; cbn [negb] in Hrun.
    + rewrite cell_index_idx in Hrun.
      destruct (grid_get grid (idx (cell_of s))) as [voxel |] eqn:Hget.
      * destruct (Z.ltb_spec 0 voxel) as [Hpos | Hnpos].
        -- injection Hrun as <-. cbn [pos hit_normal voxelId].
           auto.
        -- apply Hnext; [| exact Hrun].
           intros _ v Hv. rewrite Hget in Hv. injection Hv as <-. exact Hnpos.
      * apply Hnext; [| exact Hrun].
        intros _ v Hv. rewrite Hget in Hv. discriminate.
    + destruct (_ <? dist s)%num; [discriminate |].
      apply Hnext; [| exact Hrun].
      intros Hin'. rewrite Hin in Hin'. discriminate.
Qed.

(** A CPU hit, for every number model: the hit cell lies in the grid and
    holds the reported positive id, and either the ray never left its start
    cell (normal 0) or the cell in front of the hit face is free. *)
Lemma intersectVoxels_hit_inv {num : Type} `{Num num}
    (ro rd : Vec3 num) (grid : list Z) (h : Hit num) :
  intersectVoxels ro rd grid GRID_SIZE = Some h ->
  exists x y z,
    nfloor (v0 ro) = Some x /\ nfloor (v1 ro) = Some y /\
    nfloor (v2 ro) = Some z /\
    entered_from_free grid (V3 x y z) (pos h) (hit_normal h) /\
    in_grid (pos h) = true /\
    grid_get grid (idx (pos h)) = Some (voxelId h) /\
    0 < voxelId h.
Proof.
  unfold intersectVoxels. intros Hrun.
  destruct (nfloor (v0 ro)) as [x |]; [| discriminate].
  destruct (nfloor (v1 ro)) as [y |]; [| discriminate].
  destruct (nfloor (v2 ro)) as [z |]; [| discriminate].
  exists x, y, z. repeat (split; [reflexivity |]).
  apply (voxel_loop_hit_inv grid _ (V3 x y z) _ _ _ Hrun).
  left. split; reflexivity.
Qed.

Lemma grid_get_nonneg (grid : list Z) (i : Z) :
  0 <= i -> grid_get grid i = grid !! Z.to_nat i.
Proof. intros Hi. unfold grid_get. destruct (Z.leb_spec 0 i); [easy | lia]. Qed.

Lemma grid_wf_free_zero (grid : list Z) (c : Vec3 Z) :
  grid_wf grid -> in_grid c = true -> cell_free grid c ->
  grid_get grid (idx c) = Some 0.
Proof.
  intros [Hlen Hbytes] Hin Hfree.
  pose proof (idx_range _ Hin) as Hr.
  destruct (lookup_lt_is_Some_2 grid (Z.to_nat (idx c))) as [v Hv]; [lia |].
  assert (Hg : grid_get grid (idx c) = Some v)
    by (rewrite grid_get_nonneg by lia; exact Hv).
  pose proof (Hfree Hin v Hg) as Hle.
  rewrite Forall_forall in Hbytes.
  assert (0 <= v < 256).
  { apply Hbytes. apply list_elem_of_lookup. eauto. }
  rewrite Hg. f_equal. lia.
Qed.

(** Writing a free cell of a well-formed grid and zeroing it again gives
    the grid back. *)
Lemma grid_set_then_clear (grid : list Z) (c : Vec3 Z) (id : Z) :
  grid_wf grid -> in_grid c = true -> cell_free grid c ->
  grid_set (grid_set grid (idx c) id) (idx c) 0 = grid.
Proof.
  intros Hwf Hin Hfree.
  pose proof (grid_wf_free_zero _ _ Hwf Hin Hfree) as Hz.
  pose proof (idx_range _ Hin) as Hr.
  rewrite grid_get_nonneg in Hz by lia.
  unfold grid_set.
  destruct (Z.leb_spec 0 (idx c)); [| lia].
  rewrite list_insert_insert_eq. apply list_insert_id.
  rewrite Hz. reflexivity.
Qed.

(** ** Stepping the CPU loop *)

Lemma voxel_loop_pass {num : Type} `{Num num} (grid : list Z) (gridSize : Z)
    (p : Stride num) (fuel : nat) (s : Ray num) :
  out_of_bounds gridSize s = false ->
  grid_get grid (cell_index gridSize s) = Some 0 ->
  voxel_loop grid gridSize p (S fuel) s =
    voxel_loop grid gridSize p fuel (dda_step p s).
Proof. intros Hb Hg. simpl. rewrite Hb, Hg. reflexivity. Qed.

Lemma voxel_loop_hit {num : Type} `{Num num} (grid : list Z) (gridSize : Z)
    (p : Stride num) (fuel : nat) (s : Ray num) (v : Z) :
  out_of_bounds gridSize s = false ->
  grid_get grid (cell_index gridSize s) = Some v ->
  (0 <? v) = true ->
  voxel_loop grid gridSize p (S fuel) s =
    Some (mkHit (cell_of s) (normal s) v (dist s)).
Proof. intros Hb Hg Hv. simpl. rewrite Hb, Hg, Hv. reflexivity. Qed.

Lemma dda_step_X (p : Stride R) (s : Ray R) :
  (sideDistX s < sideDistY s)%R -> (sideDistX s < sideDistZ s)%R ->
  dda_step p s = advanceX p s.
Proof.
  intros H1 H2. rewrite dda_step_R.
  rewrite (proj2 (Rltb_true _ _) H1), (proj2 (Rltb_true _ _) H2).
  reflexivity.
Qed.

Lemma dda_step_Y (p : Stride R) (s : Ray R) :
  (sideDistY s <= sideDistX s)%R -> (sideDistY s < sideDistZ s)%R ->
  dda_step p s = advanceY p s.
Proof.
  intros H1 H2. rewrite dda_step_R.
  rewrite (proj2 (Rltb_false _ _) H1), (proj2 (Rltb_true _ _) H2).
  reflexivity.
Qed.

Lemma dda_step_Z (p : Stride R) (s : Ray R) :
  (sideDistZ s <= sideDistX s)%R -> (sideDistZ s <= sideDistY s)%R ->
  dda_step p s = advanceZ p s.
Proof.
  intros H1 H2. rewrite dda_step_R. unfold Rltb.
  repeat (destruct (Rlt_dec _ _)); try reflexivity; lra.
Qed.

(** The CPU stride and start state in exact arithmetic, for a direction
    with no zero component. *)
Lemma cpu_stride_R (rd : Vec3 R) :
  v0 rd <> 0%R -> v1 rd <> 0%R -> v2 rd <> 0%R ->
  cpu_stride rd =
    mkStride (if Rlt_dec 0 (v0 rd) then 1 else -1)
             (if Rlt_dec 0 (v1 rd) then 1 else -1)
             (if Rlt_dec 0 (v2 rd) then 1 else -1)
             (/ Rabs (v0 rd))%R (/ Rabs (v1 rd))%R (/ Rabs (v2 rd))%R.
Proof.
  intros H0 H1 H2. unfold cpu_stride.
  cbn [nlt nabs ndiv of_Z RNum]. unfold Rltb.
  assert (E : forall a : R, a <> 0%R -> Rabs (1 / a) = (/ Rabs a)%R).
  { intros a Ha. unfold Rdiv. rewrite Rmult_1_l. apply Rabs_inv. }
  rewrite !E by assumption.
  destruct (Rlt_dec 0 (v0 rd)), (Rlt_dec 0 (v1 rd)), (Rlt_dec 0 (v2 rd));
    reflexivity.
Qed.

(** ** Place, then delete *)

Lemma resolvePick_voxel_inv {num : Type} `{Num num}
    (Math_cos Math_sin : num -> num) (st : AppState num) (h : Hit num) :
  resolvePick Math_cos Math_sin st = PickVoxel h ->
  intersectVoxels (cameraPos st)
    (camDirOf Math_cos Math_sin (cameraYaw st) (cameraPitch st))
    (gridData st) GRID_SIZE = Some h.
Proof.
  unfold resolvePick. intros Hp.
  destruct (lightsForEach _ _ _ _ _) as [ci md].
  destruct (intersectVoxels _ _ _ _) as [h' |].
  - destruct (_ && _); [discriminate |]. injection Hp as ->. reflexivity.
  - destruct (_ && _); discriminate.
Qed.

(** A Block-tool edit on a free target cell followed by a Delete-tool edit
    on that cell, for every number model: grid and lights are as before,
    whether or not the camera test let the block through. *)
Lemma place_then_delete_free {num : Type} `{Num num}
    (st : AppState num) (hitPos nrm nrm2 : Vec3 Z) :
  grid_wf (gridData st) ->
  tool st = BLOCK ->
  in_grid (cell_add hitPos nrm) = true ->
  cell_free (gridData st) (cell_add hitPos nrm) ->
  let placed := handleBlockAction st hitPos nrm in
  let deleted :=
    handleBlockAction (setTool placed DELETE) (cell_add hitPos nrm) nrm2 in
  gridData deleted = gridData st /\
  lights placed = lights st /\ lights deleted = lights placed.
Proof.
  intros Hwf Ht Hin Hfree placed deleted.
  pose proof (idx_range _ Hin) as Hr.
  assert (Eg : gridData placed = blockGridUpdate st hitPos nrm (gridData st)).
  { unfold placed, handleBlockAction. rewrite Ht. reflexivity. }
  assert (El : lights placed = lights st).
  { unfold placed, handleBlockAction. rewrite Ht. reflexivity. }
  assert (Ed : gridData deleted
               = grid_set (gridData placed) (idx (cell_add hitPos nrm)) 0).
  { unfold deleted, handleBlockAction, blockGridUpdate.
    cbn [tool setTool gridData set_gridData].
    assert (Hl : Z.of_nat (length (gridData placed)) = 32768).
    { rewrite Eg, (blockGridUpdate_block _ _ _ _ Ht).
      destruct (in_grid _); [destruct (_ <? _)%num |];
        rewrite ?grid_set_length; apply Hwf. }
    destruct (Z.leb_spec 0 (idx (cell_add hitPos nrm))); [| lia].
    destruct (Z.ltb_spec (idx (cell_add hitPos nrm))
                (Z.of_nat (length (gridData placed)))); [| lia].
    reflexivity. }
  split; [| split; [exact El | reflexivity]].
  rewrite Ed, Eg, (blockGridUpdate_block _ _ _ _ Ht), Hin.
  destruct (_ <? _)%num.
  - apply grid_set_then_clear; assumption.
  - pose proof (grid_wf_free_zero _ _ Hwf Hin Hfree) as Hz.
    rewrite grid_get_nonneg in Hz by lia.
    unfold grid_set. destruct (Z.leb_spec 0 (idx (cell_add hitPos nrm)));
      [| lia].
    apply list_insert_id. rewrite Hz. reflexivity.
Qed.

(** In exact arithmetic the centre of the cell the camera stands in is
    within distance 1.0 of the camera (at most sqrt 3 / 2 away). *)
Lemma camera_start_cell_within (st : AppState R) :
  camera_within_one st
    (V3 (Zfloor (v0 (cameraPos st))) (Zfloor (v1 (cameraPos st)))
        (Zfloor (v2 (cameraPos st)))).
Proof.
  rewrite camera_within_one_R. cbn [v0 v1 v2].
  pose proof (Zfloor_bound (v0 (cameraPos st))) as B0.
  pose proof (Zfloor_bound (v1 (cameraPos st))) as B1.
  pose proof (Zfloor_bound (v2 (cameraPos st))) as B2.
  assert (Sq : forall d : R, (- (1 / 2) <= d <= 1 / 2 -> d ^ 2 <= 1 / 4)%R)
    by (intros d Hd; nra).
  pose proof (Sq (IZR (Zfloor (v0 (cameraPos st))) + 1 / 2
                  - v0 (cameraPos st))%R ltac:(lra)) as S0.
  pose proof (Sq (IZR (Zfloor (v1 (cameraPos st))) + 1 / 2
                  - v1 (cameraPos st))%R ltac:(lra)) as S1.
  pose proof (Sq (IZR (Zfloor (v2 (cameraPos st))) + 1 / 2
                  - v2 (cameraPos st))%R ltac:(lra)) as S2.
  apply Rle_trans with (sqrt 1);
    [apply sqrt_le_1_alt; lra | rewrite sqrt_1; lra].
Qed.

(** C9. A Block-tool click that resolves to a voxel hit and places a block
    (its target, hit cell + normal, is in the grid and passes the camera
    test) writes the target cell; a Delete-tool edit on that cell then
    gives back the grid as it was before the click.  The lights are the
    same throughout: the Delete-tool edit adds none. *)
Theorem place_then_delete_restores
    (Math_cos Math_sin : R -> R) (st : AppState R) (h : Hit R)
    (nrm2 : Vec3 Z) :
  grid_wf (gridData st) ->
  tool st = BLOCK ->
  resolvePick Math_cos Math_sin st = PickVoxel h ->
  let target := cell_add (pos h) (hit_normal h) in
  in_grid target = true ->
  ~ camera_within_one st target ->
  let placed := performRaycastAction Math_cos Math_sin st in
  let deleted := handleBlockAction (setTool placed DELETE) target nrm2 in
  grid_get (gridData st) (idx target) = Some 0 /\
  grid_get (gridData placed) (idx target) = Some (selected_id st mod 256) /\
  gridData deleted = gridData st /\
  lights placed = lights st /\
  lights deleted = lights placed.
Proof.
  intros Hwf Ht Hp target Hin Hfar placed deleted.
  pose proof (resolvePick_voxel_inv _ _ _ _ Hp) as Hhit.
  destruct (intersectVoxels_hit_inv _ _ _ _ Hhit)
    as (x & y & z & Ex & Ey & Ez & Hfrom & _).
  assert (Hfree : cell_free (gridData st) target).
  { destruct Hfrom as [[Hn Hc] | Hfree]; [| exact Hfree].
    exfalso. apply Hfar. unfold target. rewrite Hn, Hc.
    cbn [nfloor RNum] in Ex, Ey, Ez.
    injection Ex as <-. injection Ey as <-. injection Ez as <-.
    replace (cell_add _ (V3 0 0 0))
      with (V3 (Zfloor (v0 (cameraPos st))) (Zfloor (v1 (cameraPos st)))
              (Zfloor (v2 (cameraPos st))))
      by (unfold cell_add; cbn [v0 v1 v2]; f_equal; lia).
    apply camera_start_cell_within. }
  assert (Epl : placed = handleBlockAction st (pos h) (hit_normal h)).
  { unfold placed, performRaycastAction. rewrite Hp. reflexivity. }
  destruct (place_then_delete_free st (pos h) (hit_normal h) nrm2
              Hwf Ht Hin Hfree) as (Hg & Hl1 & Hl2).
  rewrite <- Epl in Hg, Hl1, Hl2. fold target in Hg, Hl2.
  repeat split; try assumption.
  - apply grid_wf_free_zero; assumption.
  - rewrite Epl. unfold handleBlockAction. rewrite Ht.
    cbn [gridData set_gridData].
    rewrite (blockGridUpdate_block _ _ _ _ Ht). fold target. rewrite Hin.
    unfold camera_within_one in Hfar.
    destruct (_ <? _)%num; [| congruence].
    apply grid_get_set_eq. pose proof (idx_range _ Hin).
    destruct Hwf as [Hlen _]. lia.
Qed.

Lemma initialGrid_wf : grid_wf initialGrid.
Proof.
  split.
  - vm_compute. reflexivity.
  - refine (bool_decide_unpack _ _). vm_compute. exact I.
Qed.

(** The reference ray of [floorScene]: from (16.5, 2.5, 16.5) along
    (-12/25, -4/5, 9/25) it passes the cells (16,2,16), (16,1,16),
    (15,1,16), (15,1,17) and hits the floor voxel (15,0,17) from above. *)
Lemma floor_ray_hit :
  intersectVoxels (V3 (33 / 2) (5 / 2) (33 / 2))%R
    (V3 (- 4 / 5 * (3 / 5)) (- 4 / 5) (3 / 5 * (3 / 5)))%R
    initialGrid GRID_SIZE
  = Some (mkHit (V3 15 0 17) (V3 0 1 0) 15 (5 / 8 + 5 / 4)%R).
Proof.
  unfold intersectVoxels. cbn [nfloor RNum v0 v1 v2].
  rewrite (Zfloor_eq 16 (33 / 2)) by (simpl; lra).
  rewrite (Zfloor_eq 2 (5 / 2)) by (simpl; lra).
  rewrite cpu_stride_R by (cbn [v0 v1 v2]; lra).
  unfold cpu_start. rewrite cpu_stride_R by (cbn [v0 v1 v2]; lra).
  cbn [v0 v1 v2 nlt nsub nadd nmul of_Z RNum
       stepX stepY stepZ deltaDistX deltaDistY deltaDistZ].
  unfold Rltb.
  destruct (Rlt_dec 0 (- 4 / 5 * (3 / 5))) as [F | _]; [lra |].
  destruct (Rlt_dec 0 (- 4 / 5)) as [F | _]; [lra |].
  destruct (Rlt_dec 0 (3 / 5 * (3 / 5))) as [_ | F]; [| lra].
  replace (/ Rabs (- 4 / 5 * (3 / 5)))%R with (25 / 12)%R
    by (rewrite Rabs_left by lra; field).
  replace (/ Rabs (- 4 / 5))%R with (5 / 4)%R
    by (rewrite Rabs_left by lra; field).
  replace (/ Rabs (3 / 5 * (3 / 5)))%R with (25 / 9)%R
    by (rewrite Rabs_pos_eq by lra; field).
  set (p := mkStride (-1) (-1) 1 (25 / 12)%R (5 / 4)%R (25 / 9)%R).
  change (Z.to_nat (GRID_SIZE * 2)) with 64%nat.
  (* cell (16,2,16): empty, cross Y *)
  rewrite voxel_loop_pass; [| reflexivity | vm_compute; reflexivity].
  rewrite dda_step_Y by (cbn [sideDistX sideDistY sideDistZ]; lra).
  change (advanceY p _)
    with (mkRay 16 1 16 ((33 / 2 - 16) * (25 / 12))%R
            ((5 / 2 - 2) * (5 / 4) + 5 / 4)%R
            ((16 + 1 - 33 / 2) * (25 / 9))%R (V3 0 1 0)
            ((5 / 2 - 2) * (5 / 4))%R).
  (* cell (16,1,16): empty, cross X *)
  rewrite voxel_loop_pass; [| reflexivity | vm_compute; reflexivity].
  rewrite dda_step_X by (cbn [sideDistX sideDistY sideDistZ]; lra).
  change (advanceX p _)
    with (mkRay 15 1 16 ((33 / 2 - 16) * (25 / 12) + 25 / 12)%R
            ((5 / 2 - 2) * (5 / 4) + 5 / 4)%R
            ((16 + 1 - 33 / 2) * (25 / 9))%R (V3 1 0 0)
            ((33 / 2 - 16) * (25 / 12))%R).
  (* cell (15,1,16): empty, cross Z *)
  rewrite voxel_loop_pass; [| reflexivity | vm_compute; reflexivity].
  rewrite dda_step_Z by (cbn [sideDistX sideDistY sideDistZ]; lra).
  change (advanceZ p _)
    with (mkRay 15 1 17 ((33 / 2 - 16) * (25 / 12) + 25 / 12)%R
            ((5 / 2 - 2) * (5 / 4) + 5 / 4)%R
            ((16 + 1 - 33 / 2) * (25 / 9) + 25 / 9)%R (V3 0 0 (-1))
            ((16 + 1 - 33 / 2) * (25 / 9))%R).
  (* cell (15,1,17): empty, cross Y *)
  rewrite voxel_loop_pass; [| reflexivity | vm_compute; reflexivity].
  rewrite dda_step_Y by (cbn [sideDistX sideDistY sideDistZ]; lra).
  change (advanceY p _)
    with (mkRay 15 0 17 ((33 / 2 - 16) * (25 / 12) + 25 / 12)%R
            ((5 / 2 - 2) * (5 / 4) + 5 / 4 + 5 / 4)%R
            ((16 + 1 - 33 / 2) * (25 / 9) + 25 / 9)%R (V3 0 1 0)
            ((5 / 2 - 2) * (5 / 4) + 5 / 4)%R).
  (* cell (15,0,17): the floor voxel 15 *)
  rewrite (voxel_loop_hit _ _ _ _ _ 15);
    [| reflexivity | vm_compute; reflexivity | reflexivity].
  unfold cell_of. cbn [cellX cellY cellZ normal dist].
  f_equal. f_equal. lra.
Qed.

(** ** CPU and GPU traversal compared *)

Lemma dda_step_cases (p : Stride R) (s : Ray R) :
  (dda_step p s = advanceX p s /\
     (sideDistX s < sideDistY s)%R /\ (sideDistX s < sideDistZ s)%R) \/
  (dda_step p s = advanceY p s /\
     (sideDistY s <= sideDistX s)%R /\ (sideDistY s < sideDistZ s)%R) \/
  (dda_step p s = advanceZ p s /\
     (sideDistZ s <= sideDistX s)%R /\ (sideDistZ s <= sideDistY s)%R).
Proof.
  rewrite dda_step_R. unfold Rltb.
  destruct (Rlt_dec (sideDistX s) (sideDistY s)).
  - destruct (Rlt_dec (sideDistX s) (sideDistZ s)).
    + left. split; [reflexivity | lra].
    + right; right. split; [reflexivity | lra].
  - destruct (Rlt_dec (sideDistY s) (sideDistZ s)).
    + right; left. split; [reflexivity | lra].
    + right; right. split; [reflexivity | lra].
Qed.

Lemma monotone_step (p : Stride R) (s : Ray R) :
  monotone_state p s ->
  monotone_state p (dda_step p s) /\ (dist s <= dist (dda_step p s))%R.
Proof.
  intros [Hd Hs].
  destruct (dda_step_cases p s) as [[-> H] | [[-> H] | [-> H]]];
    unfold monotone_state, advanceX, advanceY, advanceZ;
    cbn [sideDistX sideDistY sideDistZ dist nadd RNum]; lra.
Qed.

Lemma axis_ok_move (step c : Z) : axis_ok step c -> axis_ok step (c + step).
Proof. unfold axis_ok. lia. Qed.

Lemma axis_left_move (step c : Z) :
  axis_left step c -> axis_left step (c + step).
Proof. unfold axis_left. lia. Qed.

Lemma axis_ok_out (step c : Z) :
  axis_ok step c -> c < 0 \/ 32 <= c -> axis_left step c.
Proof. unfold axis_ok, axis_left. lia. Qed.

Lemma axis_left_out (step c : Z) : axis_left step c -> c < 0 \/ 32 <= c.
Proof. unfold axis_left. lia. Qed.

Lemma not_behind_step (p : Stride R) (s : Ray R) :
  not_behind p s -> not_behind p (dda_step p s).
Proof.
  unfold not_behind. intros (Hx & Hy & Hz).
  destruct (dda_step_cases p s) as [[-> _] | [[-> _] | [-> _]]];
    unfold advanceX, advanceY, advanceZ; cbn [cellX cellY cellZ];
    repeat split; auto using axis_ok_move.
Qed.

Lemma left_grid_step (p : Stride R) (s : Ray R) :
  left_grid p s -> left_grid p (dda_step p s).
Proof.
  unfold left_grid. intros H.
  destruct (dda_step_cases p s) as [[-> _] | [[-> _] | [-> _]]];
    unfold advanceX, advanceY, advanceZ; cbn [cellX cellY cellZ];
    destruct H as [H | [H | H]]; auto using axis_left_move.
Qed.

Lemma out_of_bounds_spec {num : Type} (gridSize : Z) (s : Ray num) :
  out_of_bounds gridSize s = true <->
  (cellX s < 0 \/ gridSize <= cellX s) \/
  (cellY s < 0 \/ gridSize <= cellY s) \/
  (cellZ s < 0 \/ gridSize <= cellZ s).
Proof.
  unfold out_of_bounds.
  rewrite !orb_true_iff, !Z.ltb_lt, !Z.leb_le. tauto.
Qed.

Lemma left_grid_out (p : Stride R) (s : Ray R) :
  left_grid p s -> out_of_bounds 32 s = true.
Proof.
  rewrite out_of_bounds_spec. unfold left_grid.
  intros [H | [H | H]]; apply axis_left_out in H; tauto.
Qed.

Lemma out_left_grid (p : Stride R) (s : Ray R) :
  not_behind p s -> out_of_bounds 32 s = true -> left_grid p s.
Proof.
  rewrite out_of_bounds_spec. unfold not_behind, left_grid.
  intros (Hx & Hy & Hz) [Ho | [Ho | Ho]];
    [left | right; left | right; right]; eapply axis_ok_out; eassumption.
Qed.

(** Once outside, a ray that started inside never hits: on the CPU ... *)
Lemma voxel_loop_left_grid (grid : list Z) (p : Stride R) :
  forall (fuel : nat) (s : Ray R),
    left_grid p s -> voxel_loop grid 32 p fuel s = None.
Proof.
  induction fuel as [| fuel IH]; intros s Hs; simpl; [reflexivity |].
  rewrite (left_grid_out _ _ Hs).
  destruct (Rltb _ _); [reflexivity |].
  apply IH, left_grid_step, Hs.
Qed.

(** ... and in the shader. *)
Lemma glsl_loop_left_grid (grid : list Z) (p : Stride R) :
  forall (fuel : nat) (s : Ray R),
    left_grid p s -> glsl_loop grid p fuel s = None.
Proof.
  induction fuel as [| fuel IH]; intros s Hs; simpl; [reflexivity |].
  rewrite (left_grid_out _ _ Hs).
  destruct (Rltb _ (dist s)); [reflexivity |].
  destruct (Rltb _ _); [reflexivity |].
  apply IH. change (glsl_step p s) with (dda_step p s).
  apply left_grid_step, Hs.
Qed.

(** The distance of a CPU hit is at least the running distance. *)
Lemma voxel_loop_dist_ge (grid : list Z) (p : Stride R) :
  forall (fuel : nat) (s : Ray R) (h : Hit R),
    monotone_state p s ->
    voxel_loop grid 32 p fuel s = Some h ->
    (dist s <= t h)%R.
Proof.
  induction fuel as [| fuel IH]; intros s h Hm Hrun; simpl in Hrun;
    [discriminate |].
  destruct (monotone_step _ _ Hm) as [Hm' Hle].
  assert (Hnext : voxel_loop grid 32 p fuel (dda_step p s) = Some h ->
                  (dist s <= t h)%R).
  { intros Hr. pose proof (IH _ _ Hm' Hr). lra. }
  destruct (out_of_bounds 32 s).
  - destruct (Rltb _ _); [discriminate | auto].
  - destruct (grid_get grid (cell_index 32 s)) as [v |]; [| auto].
    destruct (0 <? v); [| auto].
    injection Hrun as <-. cbn [t]. lra.
Qed.

(** The shader's loop against the CPU's, from a common state with running
    distance at most [MAX_DIST], and the same number of iterations left. *)
Lemma glsl_loop_voxel_loop (grid : list Z) (p : Stride R) :
  forall (fuel : nat) (s : Ray R),
    monotone_state p s -> not_behind p s -> (dist s <= 100)%R ->
    match voxel_loop grid 32 p fuel s with
    | Some h =>
        if Rltb 100 (t h) then glsl_loop grid p fuel s = None
        else exists s',
            glsl_loop grid p fuel s = Some (s', voxelId h) /\
            cell_of s' = pos h /\ normal s' = hit_normal h /\
            dist s' = t h
    | None => glsl_loop grid p fuel s = None
    end.
Proof.
  induction fuel as [| fuel IH]; intros s Hm Hb Hd; [reflexivity |].
  destruct (monotone_step _ _ Hm) as [Hm' Hle].
  pose proof (not_behind_step _ _ Hb) as Hb'.
  cbn [voxel_loop glsl_loop]. change (glsl_step p s) with (dda_step p s).
  change (of_Z 32 * dec 15 1 <? dist s)%num
    with (Rltb (32 * dec 15 1) (dist s)).
  change (MAX_DIST <? dist s)%num with (Rltb 100 (dist s)).
  change (MAX_DIST <? dist (dda_step p s))%num
    with (Rltb 100 (dist (dda_step p s))).
  assert (Hnear : Rltb 100 (dist s) = false) by (apply Rltb_false; lra).
  destruct (out_of_bounds 32 s) eqn:Hout.
  - (* outside: neither side can hit any more *)
    pose proof (out_left_grid _ _ Hb Hout) as Hl.
    pose proof (left_grid_step _ _ Hl) as Hl'.
    rewrite Hnear.
    rewrite (glsl_loop_left_grid grid p fuel _ Hl').
    rewrite (voxel_loop_left_grid grid p fuel _ Hl').
    destruct (Rltb (32 * dec 15 1) (dist s)),
      (Rltb 100 (dist (dda_step p s))); reflexivity.
  - unfold texel.
    destruct (grid_get grid (cell_index 32 s)) as [v |] eqn:Hget;
      [change (default 0 (Some v)) with v; destruct (0 <? v) eqn:Hv
      | change (default 0 (@None Z)) with 0].
    + (* both return the hit *)
      cbn [t voxelId pos hit_normal]. rewrite Hnear.
      exists s. repeat split; reflexivity.
    + (* no voxel here: both step *)
      destruct (Rltb 100 (dist (dda_step p s))) eqn:Hfar.
      * apply Rltb_true in Hfar.
        destruct (voxel_loop grid 32 p fuel (dda_step p s)) as [h |] eqn:Hc;
          [| reflexivity].
        pose proof (voxel_loop_dist_ge _ _ _ _ _ Hm' Hc) as Hge.
        rewrite (proj2 (Rltb_true 100 (t h))) by lra. reflexivity.
      * apply Rltb_false in Hfar. apply IH; assumption.
    + change (0 <? 0) with false. cbv iota.
      destruct (Rltb 100 (dist (dda_step p s))) eqn:Hfar.
      * apply Rltb_true in Hfar.
        destruct (voxel_loop grid 32 p fuel (dda_step p s)) as [h |] eqn:Hc;
          [| reflexivity].
        pose proof (voxel_loop_dist_ge _ _ _ _ _ Hm' Hc) as Hge.
        rewrite (proj2 (Rltb_true 100 (t h))) by lra. reflexivity.
      * apply Rltb_false in Hfar. apply IH; assumption.
Qed.

(** The same comparison when the shader has more iterations left than the
    CPU: what the CPU finds, the shader finds, unless it lies beyond
    [MAX_DIST]. *)
Lemma glsl_loop_voxel_loop_hit (grid : list Z) (p : Stride R) :
  forall (fuel : nat) (s : Ray R) (h : Hit R),
    monotone_state p s -> not_behind p s -> (dist s <= 100)%R ->
    voxel_loop grid 32 p fuel s = Some h ->
    forall fuel' : nat, (fuel <= fuel')%nat ->
      if Rltb 100 (t h) then glsl_loop grid p fuel' s = None
      else exists s',
          glsl_loop grid p fuel' s = Some (s', voxelId h) /\
          cell_of s' = pos h /\ normal s' = hit_normal h /\
          dist s' = t h.
Proof.
  induction fuel as [| fuel IH]; intros s h Hm Hb Hd Hrun fuel' Hle;
    [discriminate |].
  destruct fuel' as [| fuel']; [lia |].
  assert (Hle' : (fuel <= fuel')%nat) by lia.
  destruct (monotone_step _ _ Hm) as [Hm' Hstep].
  pose proof (not_behind_step _ _ Hb) as Hb'.
  cbn [voxel_loop] in Hrun. cbn [glsl_loop].
  change (glsl_step p s) with (dda_step p s).
  change (MAX_DIST <? dist s)%num with (Rltb 100 (dist s)).
  change (MAX_DIST <? dist (dda_step p s))%num
    with (Rltb 100 (dist (dda_step p s))).
  assert (Hnext : voxel_loop grid 32 p fuel (dda_step p s) = Some h ->
            if Rltb 100 (t h)
            then (if Rltb 100 (dist (dda_step p s)) then None
                  else glsl_loop grid p fuel' (dda_step p s)) = None
            else exists s',
                (if Rltb 100 (dist (dda_step p s)) then None
                 else glsl_loop grid p fuel' (dda_step p s))
                  = Some (s', voxelId h) /\
                cell_of s' = pos h /\ normal s' = hit_normal h /\
                dist s' = t h).
  { intros Hc.
    pose proof (voxel_loop_dist_ge _ _ _ _ _ Hm' Hc) as Hge.
    destruct (Rltb 100 (dist (dda_step p s))) eqn:Hfar.
    - apply Rltb_true in Hfar.
      rewrite (proj2 (Rltb_true 100 (t h))) by lra. reflexivity.
    - apply Rltb_false in Hfar.
      exact (IH _ _ Hm' Hb' Hfar Hc fuel' Hle'). }
  destruct (out_of_bounds 32 s) eqn:Hout.
  - (* outside the grid the CPU finds nothing any more *)
    pose proof (out_left_grid _ _ Hb Hout) as Hl.
    pose proof (left_grid_step _ _ Hl) as Hl'.
    rewrite (voxel_loop_left_grid grid p fuel _ Hl') in Hrun.
    destruct (of_Z 32 * dec 15 1 <? dist s)%num; discriminate.
  - unfold texel.
    destruct (grid_get grid (cell_index 32 s)) as [v |] eqn:Hget;
      [change (default 0 (Some v)) with v; destruct (0 <? v) eqn:Hv
      | change (default 0 (@None Z)) with 0].
    + injection Hrun as <-. cbn [t voxelId pos hit_normal].
      rewrite (proj2 (Rltb_false 100 (dist s))) by lra.
      exists s. repeat split; reflexivity.
    + apply Hnext, Hrun.
    + change (0 <? 0) with false. cbv iota. apply Hnext, Hrun.
Qed.

(** For a direction with no zero component the shader starts from the
    same constants and the same state as the CPU. *)
Lemma glsl_stride_cpu_stride (rd : Vec3 R) :
  v0 rd <> 0%R -> v1 rd <> 0%R -> v2 rd <> 0%R ->
  glsl_stride rd = cpu_stride rd.
Proof.
  intros H0 H1 H2. rewrite cpu_stride_R by assumption.
  unfold glsl_stride, sign. cbn [nlt ndiv nabs of_Z RNum]. unfold Rltb.
  f_equal;
    try (repeat (destruct (Rlt_dec _ _)); try reflexivity; exfalso; lra);
    unfold Rdiv; apply Rmult_1_l.
Qed.

Lemma cpu_start_R (ro rd : Vec3 R) (x y z : Z) :
  v0 rd <> 0%R -> v1 rd <> 0%R -> v2 rd <> 0%R ->
  cpu_start ro rd x y z =
    mkRay x y z
      ((if Rlt_dec 0 (v0 rd) then IZR x + 1 - v0 ro else v0 ro - IZR x)
       * / Rabs (v0 rd))%R
      ((if Rlt_dec 0 (v1 rd) then IZR y + 1 - v1 ro else v1 ro - IZR y)
       * / Rabs (v1 rd))%R
      ((if Rlt_dec 0 (v2 rd) then IZR z + 1 - v2 ro else v2 ro - IZR z)
       * / Rabs (v2 rd))%R
      (V3 0 0 0) 0%R.
Proof.
  intros H0 H1 H2. unfold cpu_start. rewrite cpu_stride_R by assumption.
  cbn [deltaDistX deltaDistY deltaDistZ nlt nsub nadd nmul of_Z RNum].
  unfold Rltb.
  destruct (Rlt_dec 0 (v0 rd)), (Rlt_dec 0 (v1 rd)), (Rlt_dec 0 (v2 rd));
    reflexivity.
Qed.

Lemma glsl_start_cpu_start (ro rd : Vec3 R) (x y z : Z) :
  v0 rd <> 0%R -> v1 rd <> 0%R -> v2 rd <> 0%R ->
  glsl_start ro rd x y z = cpu_start ro rd x y z.
Proof.
  intros H0 H1 H2. rewrite cpu_start_R by assumption.
  unfold glsl_start. rewrite glsl_stride_cpu_stride by assumption.
  rewrite cpu_stride_R by assumption.
  cbn [stepX stepY stepZ deltaDistX deltaDistY deltaDistZ
       nsub nadd nmul of_Z RNum].
  rewrite dec_5_1.
  destruct (Rlt_dec 0 (v0 rd)), (Rlt_dec 0 (v1 rd)), (Rlt_dec 0 (v2 rd));
    f_equal; f_equal; lra.
Qed.

Lemma cpu_start_monotone (ro rd : Vec3 R) :
  v0 rd <> 0%R -> v1 rd <> 0%R -> v2 rd <> 0%R ->
  monotone_state (cpu_stride rd)
    (cpu_start ro rd (Zfloor (v0 ro)) (Zfloor (v1 ro)) (Zfloor (v2 ro))).
Proof.
  intros H0 H1 H2.
  rewrite cpu_start_R, cpu_stride_R by assumption.
  unfold monotone_state.
  cbn [deltaDistX deltaDistY deltaDistZ sideDistX sideDistY sideDistZ dist].
  pose proof (Zfloor_bound (v0 ro)) as B0.
  pose proof (Zfloor_bound (v1 ro)) as B1.
  pose proof (Zfloor_bound (v2 ro)) as B2.
  assert (P : forall a : R, a <> 0%R -> (0 < / Rabs a)%R).
  { intros a Ha. apply Rinv_0_lt_compat, Rabs_pos_lt, Ha. }
  pose proof (P _ H0) as P0. pose proof (P _ H1) as P1.
  pose proof (P _ H2) as P2.
  repeat split; try lra;
    apply Rmult_le_pos; try lra;
    destruct (Rlt_dec _ _); lra.
Qed.

Lemma cpu_start_not_behind (ro rd : Vec3 R) :
  (0 <= v0 ro < 32)%R -> (0 <= v1 ro < 32)%R -> (0 <= v2 ro < 32)%R ->
  v0 rd <> 0%R -> v1 rd <> 0%R -> v2 rd <> 0%R ->
  not_behind (cpu_stride rd)
    (cpu_start ro rd (Zfloor (v0 ro)) (Zfloor (v1 ro)) (Zfloor (v2 ro))).
Proof.
  intros R0 R1 R2 H0 H1 H2.
  rewrite cpu_start_R, cpu_stride_R by assumption.
  unfold not_behind. cbn [stepX stepY stepZ cellX cellY cellZ].
  assert (P : forall a : R, (0 <= a < 32)%R -> 0 <= Zfloor a < 32).
  { intros a Ha. pose proof (Zfloor_bound a) as B. split.
    - apply Zfloor_lub. simpl. lra.
    - apply lt_IZR. lra. }
  pose proof (P _ R0). pose proof (P _ R1). pose proof (P _ R2).
  unfold axis_ok.
  repeat split; destruct (Rlt_dec _ _); lia.
Qed.

(** The shader run against the CPU loop with the same number [n] of
    iterations, for a ray that starts in the grid with no zero direction
    component. *)
Lemma glsl_run_voxel_loop (n : nat) (ro rd : Vec3 R) (grid : list Z) :
  (0 <= v0 ro < 32)%R -> (0 <= v1 ro < 32)%R -> (0 <= v2 ro < 32)%R ->
  v0 rd <> 0%R -> v1 rd <> 0%R -> v2 rd <> 0%R ->
  match voxel_loop grid 32 (cpu_stride rd) n
          (cpu_start ro rd (Zfloor (v0 ro)) (Zfloor (v1 ro))
             (Zfloor (v2 ro))) with
  | Some h =>
      if Rltb 100 (t h) then
        intersectVoxels_glsl (Z.of_nat n) ro rd grid = glsl_miss /\
        glsl_hit_cell (Z.of_nat n) ro rd grid = None
      else
        intersectVoxels_glsl (Z.of_nat n) ro rd grid
          = mkVoxelHit (t h) (hit_normal h) (voxelId h) /\
        glsl_hit_cell (Z.of_nat n) ro rd grid = Some (pos h)
  | None =>
      intersectVoxels_glsl (Z.of_nat n) ro rd grid = glsl_miss /\
      glsl_hit_cell (Z.of_nat n) ro rd grid = None
  end.
Proof.
  intros R0 R1 R2 H0 H1 H2.
  pose proof (glsl_loop_voxel_loop grid (cpu_stride rd) n _
                (cpu_start_monotone ro rd H0 H1 H2)
                (cpu_start_not_behind ro rd R0 R1 R2 H0 H1 H2)) as L.
  assert (D0 : (dist (cpu_start ro rd (Zfloor (v0 ro)) (Zfloor (v1 ro))
                        (Zfloor (v2 ro))) <= 100)%R).
  { unfold cpu_start. cbn [dist of_Z RNum]. lra. }
  specialize (L D0).
  unfold intersectVoxels_glsl, glsl_hit_cell, glsl_run.
  cbn [nfloor RNum]. rewrite Nat2Z.id.
  rewrite glsl_stride_cpu_stride, glsl_start_cpu_start by assumption.
  destruct (voxel_loop _ _ _ _ _) as [h |].
  - destruct (Rltb 100 (t h)).
    + rewrite L. split; reflexivity.
    + destruct L as (s' & -> & Ec & En & Ed).
      rewrite <- Ec, <- En, <- Ed. split; reflexivity.
  - rewrite L. split; reflexivity.
Qed.

(** The shader run with at least as many iterations as the CPU loop. *)
Lemma glsl_run_voxel_loop_hit (n : nat) (MAX_STEPS : Z) (ro rd : Vec3 R)
    (grid : list Z) (h : Hit R) :
  (0 <= v0 ro < 32)%R -> (0 <= v1 ro < 32)%R -> (0 <= v2 ro < 32)%R ->
  v0 rd <> 0%R -> v1 rd <> 0%R -> v2 rd <> 0%R ->
  Z.of_nat n <= MAX_STEPS ->
  voxel_loop grid 32 (cpu_stride rd) n
    (cpu_start ro rd (Zfloor (v0 ro)) (Zfloor (v1 ro)) (Zfloor (v2 ro)))
  = Some h ->
  if Rltb 100 (t h) then
    intersectVoxels_glsl MAX_STEPS ro rd grid = glsl_miss /\
    glsl_hit_cell MAX_STEPS ro rd grid = None
  else
    intersectVoxels_glsl MAX_STEPS ro rd grid
      = mkVoxelHit (t h) (hit_normal h) (voxelId h) /\
    glsl_hit_cell MAX_STEPS ro rd grid = Some (pos h).
Proof.
  intros R0 R1 R2 H0 H1 H2 Hn Hrun.
  assert (D0 : (dist (cpu_start ro rd (Zfloor (v0 ro)) (Zfloor (v1 ro))
                        (Zfloor (v2 ro))) <= 100)%R).
  { unfold cpu_start. cbn [dist of_Z RNum]. lra. }
  pose proof (glsl_loop_voxel_loop_hit grid (cpu_stride rd) n _ h
                (cpu_start_monotone ro rd H0 H1 H2)
                (cpu_start_not_behind ro rd R0 R1 R2 H0 H1 H2)
                D0 Hrun (Z.to_nat MAX_STEPS)) as L.
  assert (Hle : (n <= Z.to_nat MAX_STEPS)%nat) by lia.
  specialize (L Hle).
  unfold intersectVoxels_glsl, glsl_hit_cell, glsl_run.
  cbn [nfloor RNum].
  rewrite glsl_stride_cpu_stride, glsl_start_cpu_start by assumption.
  destruct (Rltb 100 (t h)).
  - rewrite L. split; reflexivity.
  - destruct L as (s' & -> & Ec & En & Ed).
    rewrite <- Ec, <- En, <- Ed. split; reflexivity.
Qed.

(** C1, amended. In exact arithmetic, for every ray that starts inside
    the grid with no zero direction component, and for a shader built with
    any [MAX_STEPS] of at least 64 (every quality preset): a CPU hit at
    distance at most 100 is the shader's hit (same cell, distance, normal
    and id); a CPU hit farther than 100 is a shader miss; and with the LOW
    preset, whose 64 iterations are those of the CPU, a CPU miss is a shader
    miss. *)
Theorem cpu_gpu_parity_exact (MAX_STEPS : Z) (ro rd : Vec3 R)
    (grid : list Z) :
  (0 <= v0 ro < 32)%R -> (0 <= v1 ro < 32)%R -> (0 <= v2 ro < 32)%R ->
  v0 rd <> 0%R -> v1 rd <> 0%R -> v2 rd <> 0%R ->
  64 <= MAX_STEPS ->
  let cpu := intersectVoxels ro rd grid GRID_SIZE in
  let gpu := intersectVoxels_glsl MAX_STEPS ro rd grid in
  let gpu_cell := glsl_hit_cell MAX_STEPS ro rd grid in
  (forall h, cpu = Some h -> (t h <= 100)%R ->
     gpu = mkVoxelHit (t h) (hit_normal h) (voxelId h) /\
     gpu_cell = Some (pos h)) /\
  (forall h, cpu = Some h -> (100 < t h)%R ->
     gpu = glsl_miss /\ gpu_cell = None) /\
  (MAX_STEPS = maxSteps (getQualityConfig (num := R) LOW) ->
     cpu = None -> gpu = glsl_miss /\ gpu_cell = None) /\
  (forall q : QualityMode, 64 <= maxSteps (getQualityConfig (num := R) q)).
Proof.
  intros R0 R1 R2 H0 H1 H2 Hsteps cpu gpu gpu_cell.
  assert (Ec : cpu = voxel_loop grid 32 (cpu_stride rd) 64
                 (cpu_start ro rd (Zfloor (v0 ro)) (Zfloor (v1 ro))
                    (Zfloor (v2 ro)))) by reflexivity.
  assert (Hn : Z.of_nat 64 <= MAX_STEPS) by lia.
  split; [| split; [| split]].
  - intros h Hc Ht. rewrite Ec in Hc.
    pose proof (glsl_run_voxel_loop_hit 64 MAX_STEPS ro rd grid h
                  R0 R1 R2 H0 H1 H2 Hn Hc) as L.
    rewrite (proj2 (Rltb_false 100 (t h))) in L by lra. exact L.
  - intros h Hc Ht. rewrite Ec in Hc.
    pose proof (glsl_run_voxel_loop_hit 64 MAX_STEPS ro rd grid h
                  R0 R1 R2 H0 H1 H2 Hn Hc) as L.
    rewrite (proj2 (Rltb_true 100 (t h))) in L by lra. exact L.
  - intros Hlow Hc. rewrite Ec in Hc.
    pose proof (glsl_run_voxel_loop 64 ro rd grid R0 R1 R2 H0 H1 H2) as L.
    rewrite Hc in L. unfold gpu, gpu_cell. rewrite Hlow. exact L.
  - intros []; cbn; lia.
Qed.

(** The floor voxel the CPU picks is the one the ULTRA shader renders. *)
Lemma cpu_gpu_parity_exact_witness :
  let ro := V3 (33 / 2)%R (5 / 2)%R (33 / 2)%R in
  let rd := V3 (- 4 / 5 * (3 / 5))%R (- 4 / 5)%R (3 / 5 * (3 / 5))%R in
  intersectVoxels_glsl 1024 ro rd initialGrid
    = mkVoxelHit (5 / 8 + 5 / 4)%R (V3 0 1 0) 15 /\
  glsl_hit_cell 1024 ro rd initialGrid = Some (V3 15 0 17).
Proof.
  intros ro rd.
  refine (proj1 (cpu_gpu_parity_exact 1024 ro rd initialGrid _ _ _ _ _ _ _)
            _ floor_ray_hit _);
    unfold ro, rd; cbn [v0 v1 v2 t]; lra || lia.
Defined.

(** ** A voxel beyond the CPU's reach *)

(** One iteration of the CPU loop over an empty cell, in exact arithmetic:
    justify the pass, pick the branch of the step, unfold its assignments. *)
Ltac march_step :=
  rewrite voxel_loop_pass;
    [ | reflexivity
      | cbn [cell_index cellX cellY cellZ]; vm_compute; reflexivity ];
  first
    [ rewrite dda_step_X by (cbn [sideDistX sideDistY sideDistZ]; lra);
      unfold advanceX
    | rewrite dda_step_Y by (cbn [sideDistX sideDistY sideDistZ]; lra);
      unfold advanceY
    | rewrite dda_step_Z by (cbn [sideDistX sideDistY sideDistZ]; lra);
      unfold advanceZ ];
  cbn [cellX cellY cellZ sideDistX sideDistY sideDistZ normal dist
       stepX stepY stepZ deltaDistX deltaDistY deltaDistZ nadd RNum].

(** The ray from (1/2, 1/4, 1/8) along the unit vector (2/3, 2/3, 1/3)
    through the grid whose only voxel is (31,31,15). *)
Lemma diagonal_stride :
  cpu_stride (V3 (2 / 3) (2 / 3) (1 / 3))%R
  = mkStride 1 1 1 (3 / 2)%R (3 / 2)%R 3%R.
Proof.
  rewrite cpu_stride_R by (cbn [v0 v1 v2]; lra). cbn [v0 v1 v2].
  destruct (Rlt_dec 0 (2 / 3)) as [_ | F]; [| lra].
  destruct (Rlt_dec 0 (1 / 3)) as [_ | F]; [| lra].
  f_equal; rewrite Rabs_pos_eq by lra; field.
Qed.

Lemma diagonal_start :
  cpu_start (V3 (1 / 2) (1 / 4) (1 / 8))%R (V3 (2 / 3) (2 / 3) (1 / 3))%R
    0 0 0
  = mkRay 0 0 0 (3 / 4)%R (9 / 8)%R (21 / 8)%R (V3 0 0 0) 0%R.
Proof.
  rewrite cpu_start_R by (cbn [v0 v1 v2]; lra). cbn [v0 v1 v2].
  destruct (Rlt_dec 0 (2 / 3)) as [_ | F]; [| lra].
  destruct (Rlt_dec 0 (1 / 3)) as [_ | F]; [| lra].
  f_equal; rewrite Rabs_pos_eq by lra; field.
Qed.

(** After the CPU's 64 iterations the voxel has not been reached. *)
Lemma diagonal_cpu_64 :
  voxel_loop (oneVoxel 31 31 15 9) 32
    (mkStride 1 1 1 (3 / 2)%R (3 / 2)%R 3%R) 64
    (mkRay 0 0 0 (3 / 4)%R (9 / 8)%R (21 / 8)%R (V3 0 0 0) 0%R)
  = None.
Proof.
  do 64 march_step. reflexivity.
Qed.

(** With 128 iterations the loop reaches it on iteration 78. *)
Lemma diagonal_cpu_128 :
  voxel_loop (oneVoxel 31 31 15 9) 32
    (mkStride 1 1 1 (3 / 2)%R (3 / 2)%R 3%R) 128
    (mkRay 0 0 0 (3 / 4)%R (9 / 8)%R (21 / 8)%R (V3 0 0 0) 0%R)
  = Some (mkHit (V3 31 31 15) (V3 0 (-1) 0) 9 (369 / 8)%R).
Proof.
  do 77 march_step.
  rewrite (voxel_loop_hit _ _ _ _ _ 9);
    [| reflexivity
     | cbn [cell_index cellX cellY cellZ]; vm_compute; reflexivity
     | reflexivity].
  unfold cell_of. cbn [cellX cellY cellZ normal dist].
  f_equal. f_equal; try reflexivity; lra.
Qed.

(** Iteration budget.  The ray from (1/2, 1/4, 1/8) along the unit
    vector (2/3, 2/3, 1/3) starts inside the grid and has no zero direction
    component.  The only voxel, (31,31,15), is 77 cell crossings away, at
    distance 369/8.  The CPU traversal stops after its 64 iterations and
    reports a miss; the shader built for the MEDIUM preset runs up to 128
    iterations and reports the voxel. *)
Lemma beyond_budget_medium :
  let ro := V3 (1 / 2)%R (1 / 4)%R (1 / 8)%R in
  let rd := V3 (2 / 3)%R (2 / 3)%R (1 / 3)%R in
  let grid := oneVoxel 31 31 15 9 in
  let MAX_STEPS := maxSteps (getQualityConfig (num := R) MEDIUM) in
  ((0 <= v0 ro < 32)%R /\ (0 <= v1 ro < 32)%R /\ (0 <= v2 ro < 32)%R /\
   v0 rd <> 0%R /\ v1 rd <> 0%R /\ v2 rd <> 0%R) /\
  intersectVoxels ro rd grid GRID_SIZE = None /\
  intersectVoxels_glsl MAX_STEPS ro rd grid
    = mkVoxelHit (369 / 8)%R (V3 0 (-1) 0) 9 /\
  glsl_hit_cell MAX_STEPS ro rd grid = Some (V3 31 31 15).
Proof.
  intros ro rd grid MAX_STEPS.
  assert (Hro : (0 <= v0 ro < 32)%R /\ (0 <= v1 ro < 32)%R /\
                (0 <= v2 ro < 32)%R)
    by (unfold ro; cbn [v0 v1 v2]; lra).
  assert (Hrd : v0 rd <> 0%R /\ v1 rd <> 0%R /\ v2 rd <> 0%R)
    by (unfold rd; cbn [v0 v1 v2]; lra).
  assert (F0 : Zfloor (v0 ro) = 0)
    by (apply Zfloor_eq; unfold ro; cbn [v0]; simpl; lra).
  assert (F1 : Zfloor (v1 ro) = 0)
    by (apply Zfloor_eq; unfold ro; cbn [v1]; simpl; lra).
  assert (F2 : Zfloor (v2 ro) = 0)
    by (apply Zfloor_eq; unfold ro; cbn [v2]; simpl; lra).
  split; [tauto |].
  split.
  - unfold intersectVoxels. cbn [nfloor RNum]. rewrite F0, F1, F2.
    unfold ro, rd. rewrite diagonal_stride, diagonal_start.
    exact diagonal_cpu_64.
  - destruct Hro as (R0 & R1 & R2). destruct Hrd as (H0 & H1 & H2).
    pose proof (glsl_run_voxel_loop 128 ro rd grid R0 R1 R2 H0 H1 H2) as L.
    rewrite F0, F1, F2 in L. unfold ro, rd, grid in L.
    rewrite diagonal_stride, diagonal_start, diagonal_cpu_128 in L.
    cbn [t hit_normal voxelId pos] in L.
    rewrite (proj2 (Rltb_false 100 (369 / 8))) in L by lra.
    exact L.
Qed.

(** Distance cut-off.  The distance cut-off alone also separates the two,
    already with the LOW preset: along the short direction (1/1000, -3/1000, 1/500) the
    voxel (0,0,0) is one crossing away, at distance 500/3 > 100.  The CPU
    reports it; the shader stops once t exceeds MAX_DIST. *)
Lemma beyond_max_dist_low :
  let ro := V3 (1 / 2)%R (3 / 2)%R (1 / 2)%R in
  let rd := V3 (1 / 1000)%R (- 3 / 1000)%R (1 / 500)%R in
  let grid := oneVoxel 0 0 0 9 in
  intersectVoxels ro rd grid GRID_SIZE
    = Some (mkHit (V3 0 0 0) (V3 0 1 0) 9 (500 / 3)%R) /\
  intersectVoxels_glsl (maxSteps (getQualityConfig (num := R) LOW))
    ro rd grid = glsl_miss.
Proof.
  intros ro rd grid.
  assert (R0 : (0 <= v0 ro < 32)%R) by (unfold ro; cbn [v0]; lra).
  assert (R1 : (0 <= v1 ro < 32)%R) by (unfold ro; cbn [v1]; lra).
  assert (R2 : (0 <= v2 ro < 32)%R) by (unfold ro; cbn [v2]; lra).
  assert (H0 : v0 rd <> 0%R) by (unfold rd; cbn [v0]; lra).
  assert (H1 : v1 rd <> 0%R) by (unfold rd; cbn [v1]; lra).
  assert (H2 : v2 rd <> 0%R) by (unfold rd; cbn [v2]; lra).
  assert (F0 : Zfloor (v0 ro) = 0)
    by (apply Zfloor_eq; unfold ro; cbn [v0]; simpl; lra).
  assert (F1 : Zfloor (v1 ro) = 1)
    by (apply Zfloor_eq; unfold ro; cbn [v1]; simpl; lra).
  assert (F2 : Zfloor (v2 ro) = 0)
    by (apply Zfloor_eq; unfold ro; cbn [v2]; simpl; lra).
  assert (Es : cpu_stride rd
               = mkStride 1 (-1) 1 1000%R (1000 / 3)%R 500%R).
  { rewrite cpu_stride_R by assumption. unfold rd. cbn [v0 v1 v2].
    destruct (Rlt_dec 0 (1 / 1000)) as [_ | F]; [| lra].
    destruct (Rlt_dec 0 (- 3 / 1000)) as [F | _]; [lra |].
    destruct (Rlt_dec 0 (1 / 500)) as [_ | F]; [| lra].
    f_equal; [rewrite Rabs_pos_eq by lra | rewrite Rabs_left by lra
             | rewrite Rabs_pos_eq by lra]; field. }
  assert (E0 : cpu_start ro rd 0 1 0
               = mkRay 0 1 0 500%R (500 / 3)%R 250%R (V3 0 0 0) 0%R).
  { rewrite cpu_start_R by assumption. unfold ro, rd. cbn [v0 v1 v2].
    destruct (Rlt_dec 0 (1 / 1000)) as [_ | F]; [| lra].
    destruct (Rlt_dec 0 (- 3 / 1000)) as [F | _]; [lra |].
    destruct (Rlt_dec 0 (1 / 500)) as [_ | F]; [| lra].
    f_equal; [rewrite Rabs_pos_eq by lra | rewrite Rabs_left by lra
             | rewrite Rabs_pos_eq by lra]; field. }
  assert (Ec : voxel_loop grid 32 (cpu_stride rd) 64 (cpu_start ro rd 0 1 0)
               = Some (mkHit (V3 0 0 0) (V3 0 1 0) 9 (500 / 3)%R)).
  { rewrite Es, E0. unfold grid. march_step.
    rewrite (voxel_loop_hit _ _ _ _ _ 9);
      [| reflexivity
       | cbn [cell_index cellX cellY cellZ]; vm_compute; reflexivity
       | reflexivity].
    reflexivity. }
  split.
  - unfold intersectVoxels. cbn [nfloor RNum]. rewrite F0, F1, F2.
    exact Ec.
  - pose proof (glsl_run_voxel_loop 64 ro rd grid R0 R1 R2 H0 H1 H2) as L.
    rewrite F0, F1, F2, Ec in L. cbn [t] in L.
    rewrite (proj2 (Rltb_true 100 (500 / 3))) in L by lra.
    apply L.
Qed.

(** The same separation in binary64 (all values below are exact in
    binary32 as well): direction (1,1,1), voxel (31,31,31), 93 crossings. *)
Example cpu_gpu_differ_medium_float :
  let ro := V3 0.5%float 0.25%float 0.125%float in
  let rd := V3 1%float 1%float 1%float in
  let grid := oneVoxel 31 31 31 9 in
  intersectVoxels ro rd grid GRID_SIZE = None /\
  intersectVoxels_glsl (maxSteps (getQualityConfig (num := float) MEDIUM))
    ro rd grid = mkVoxelHit 30.875%float (V3 0 0 (-1)) 9 /\
  intersectVoxels_glsl (maxSteps (getQualityConfig (num := float) LOW))
    ro rd grid = glsl_miss.
Proof. vm_compute. repeat split. Qed.

(** Rounding, in the formats the code runs in.  Along [seventhRay] the
    binary64 CPU accumulates sideDistX = 0.49999999999999994 < 0.5 at cell
    (3,0,0), crosses X and reports voxel 1 at (4,0,0); the binary32 shader
    accumulates tMax.x >= 0.5 = tMax.z, crosses Z and reports voxel 2 at
    (3,0,1), as exact arithmetic does. *)
Lemma rounding_binary64_binary32 :
  option_map (fun h => (pos h, voxelId h))
    (intersectVoxels (num := float) seventhRay_ro seventhRay_rd
       twoVoxels GRID_SIZE) = Some (V3 4 0 0, 1) /\
  glsl_hit_cell (num := spec_float) 64 seventhRay_ro seventhRay_rd twoVoxels
    = Some (V3 3 0 1) /\
  vh_id (intersectVoxels_glsl (num := spec_float) 64
           seventhRay_ro seventhRay_rd twoVoxels) = 2.
Proof. vm_compute. repeat split. Qed.

(** Rounding, within one format.  The two paths compute the first
    boundary distances by different formulas.  Along [cornerRay] the CPU's
    [ro - x] is exact: sideDistX = 1/8 is below sideDistY = 1/8 + ulp, X is
    crossed and voxel (0,0,0) is hit.  The shader's [pos - ro + 0.5] rounds
    3/8 - ulp to 3/8, its tMax.y is 1/8 = tMax.x, the tie goes to Y, the
    ray leaves the grid and the shader reports a miss: in binary64, in
    binary32, and between the binary64 CPU and the binary32 shader on the
    same binary32 ray. *)
Lemma rounding_start_formula :
  (option_map (fun h => (pos h, voxelId h))
     (intersectVoxels (num := float) (cornerRay_ro 52) cornerRay_rd
        (oneVoxel 0 0 0 9) GRID_SIZE) = Some (V3 0 0 0, 9) /\
   intersectVoxels_glsl (num := float) 64 (cornerRay_ro 52) cornerRay_rd
     (oneVoxel 0 0 0 9) = glsl_miss) /\
  (option_map (fun h => (pos h, voxelId h))
     (intersectVoxels (num := spec_float) (cornerRay_ro 23) cornerRay_rd
        (oneVoxel 0 0 0 9) GRID_SIZE) = Some (V3 0 0 0, 9) /\
   intersectVoxels_glsl (num := spec_float) 64 (cornerRay_ro 23) cornerRay_rd
     (oneVoxel 0 0 0 9) = glsl_miss) /\
  (option_map (fun h => (pos h, voxelId h))
     (intersectVoxels (num := float) (cornerRay_ro 23) cornerRay_rd
        (oneVoxel 0 0 0 9) GRID_SIZE) = Some (V3 0 0 0, 9) /\
   intersectVoxels_glsl (num := spec_float) 1024 (cornerRay_ro 23)
     cornerRay_rd (oneVoxel 0 0 0 9) = glsl_miss).
Proof. vm_compute. repeat split. Qed.

(** C1, as stated, fails, in four ways: (1) the shader of the MEDIUM
    preset reports a voxel beyond the CPU's 64 iterations; (2) the CPU
    reports a voxel beyond the shader's MAX_DIST; (3) the binary64 CPU and
    the binary32 shader round the accumulated boundary distances
    differently and report different voxels; (4) the two start formulas
    round differently within one format, and the CPU reports a voxel where
    the shader reports none.  (1) and (2) are in exact arithmetic; (3) and
    (4) are why parity holds in exact arithmetic only. *)
Lemma cpu_gpu_differ :
  (let ro := V3 (1 / 2)%R (1 / 4)%R (1 / 8)%R in
   let rd := V3 (2 / 3)%R (2 / 3)%R (1 / 3)%R in
   let grid := oneVoxel 31 31 15 9 in
   let MAX_STEPS := maxSteps (getQualityConfig (num := R) MEDIUM) in
   ((0 <= v0 ro < 32)%R /\ (0 <= v1 ro < 32)%R /\ (0 <= v2 ro < 32)%R /\
    v0 rd <> 0%R /\ v1 rd <> 0%R /\ v2 rd <> 0%R) /\
   intersectVoxels ro rd grid GRID_SIZE = None /\
   intersectVoxels_glsl MAX_STEPS ro rd grid
     = mkVoxelHit (369 / 8)%R (V3 0 (-1) 0) 9 /\
   glsl_hit_cell MAX_STEPS ro rd grid = Some (V3 31 31 15)) /\
  (let ro := V3 (1 / 2)%R (3 / 2)%R (1 / 2)%R in
   let rd := V3 (1 / 1000)%R (- 3 / 1000)%R (1 / 500)%R in
   let grid := oneVoxel 0 0 0 9 in
   intersectVoxels ro rd grid GRID_SIZE
     = Some (mkHit (V3 0 0 0) (V3 0 1 0) 9 (500 / 3)%R) /\
   intersectVoxels_glsl (maxSteps (getQualityConfig (num := R) LOW))
     ro rd grid = glsl_miss) /\
  (option_map (fun h => (pos h, voxelId h))
     (intersectVoxels (num := float) seventhRay_ro seventhRay_rd
        twoVoxels GRID_SIZE) = Some (V3 4 0 0, 1) /\
   glsl_hit_cell (num := spec_float) 64 seventhRay_ro seventhRay_rd twoVoxels
     = Some (V3 3 0 1) /\
   vh_id (intersectVoxels_glsl (num := spec_float) 64
            seventhRay_ro seventhRay_rd twoVoxels) = 2) /\
  (option_map (fun h => (pos h, voxelId h))
     (intersectVoxels (num := float) (cornerRay_ro 52) cornerRay_rd
        (oneVoxel 0 0 0 9) GRID_SIZE) = Some (V3 0 0 0, 9) /\
   intersectVoxels_glsl (num := float) 64 (cornerRay_ro 52) cornerRay_rd
     (oneVoxel 0 0 0 9) = glsl_miss /\
   option_map (fun h => (pos h, voxelId h))
     (intersectVoxels (num := float) (cornerRay_ro 23) cornerRay_rd
        (oneVoxel 0 0 0 9) GRID_SIZE) = Some (V3 0 0 0, 9) /\
   intersectVoxels_glsl (num := spec_float) 64 (cornerRay_ro 23)
     cornerRay_rd (oneVoxel 0 0 0 9) = glsl_miss).
Proof.
  split; [exact beyond_budget_medium |].
  split; [exact beyond_max_dist_low |].
  split; [exact rounding_binary64_binary32 |].
  vm_compute. repeat split.
Qed.

(** ** Place, then delete: the reference click *)

Lemma floorScene_pick :
  resolvePick cos_at_theta sin_at_theta
    (floorScene (V3 (33 / 2) (5 / 2) (33 / 2))%R BLOCK)
  = PickVoxel (mkHit (V3 15 0 17) (V3 0 1 0) 15 (5 / 8 + 5 / 4)%R).
Proof.
  unfold resolvePick, floorScene, camDirOf, cos_at_theta, sin_at_theta.
  cbn [cameraYaw cameraPitch cameraPos lights gridData lightsForEach
       nmul RNum].
  rewrite floor_ray_hit. reflexivity.
Qed.

Lemma floorScene_target_far :
  ~ camera_within_one (floorScene (V3 (33 / 2) (5 / 2) (33 / 2))%R BLOCK)
      (V3 15 1 17).
Proof.
  rewrite camera_within_one_R. unfold floorScene. cbn [cameraPos v0 v1 v2].
  intros Hle.
  assert (Hlt : (sqrt 1 < sqrt ((15 + 1 / 2 - 33 / 2) ^ 2
                                + (1 + 1 / 2 - 5 / 2) ^ 2
                                + (17 + 1 / 2 - 33 / 2) ^ 2))%R)
    by (apply sqrt_lt_1_alt; lra).
  rewrite sqrt_1 in Hlt. lra.
Qed.

Lemma place_then_delete_restores_witness :
  let st := floorScene (V3 (33 / 2) (5 / 2) (33 / 2))%R BLOCK in
  let placed := performRaycastAction cos_at_theta sin_at_theta st in
  let deleted :=
    handleBlockAction (setTool placed DELETE) (V3 15 1 17) (V3 0 1 0) in
  grid_get (gridData st) (idx (V3 15 1 17)) = Some 0 /\
  grid_get (gridData placed) (idx (V3 15 1 17))
    = Some (selected_id st mod 256) /\
  gridData deleted = gridData st /\
  lights placed = lights st /\
  lights deleted = lights placed.
Proof.
  intros st placed deleted.
  exact (place_then_delete_restores cos_at_theta sin_at_theta st _
           (V3 0 1 0) initialGrid_wf eq_refl floorScene_pick eq_refl
           floorScene_target_far).
Defined.

(** The same two clicks in binary64, both resolved by the ray caster.
    The camera at (16.5, 3.5, 4.5) looks along (0, -0.6, 0.8) and sees the
    floor voxel (16,0,8) through its z face; the Block click writes palette
    id 1 into (16,0,7), and the Delete click with the same view removes
    it. *)
Example place_then_delete_clicks_float :
  let pitch := (-0x1.4978fa3269ee1p-1)%float in
  let cosf := fun a : float =>
    if PrimFloat.eqb a 0 then 1%float else (8 / 10)%float in
  let sinf := fun a : float =>
    if PrimFloat.eqb a 0 then 0%float else (-6 / 10)%float in
  let st := mkApp (num := float) initialGrid initialLights
              (V3 16.5 3.5 4.5)%float 0%float pitch 0 false BLOCK in
  let placed := performRaycastAction cosf sinf st in
  let deleted := performRaycastAction cosf sinf (setTool placed DELETE) in
  grid_get (gridData st) (idx (V3 16 0 7)) = Some 0 /\
  grid_get (gridData placed) (idx (V3 16 0 7)) = Some 1 /\
  bool_decide (gridData deleted = gridData st) = true /\
  length (lights deleted) = 2%nat.
Proof. vm_compute. repeat split. Qed.
(** * Further properties *)

(** ** Traversals: what a hit guarantees *)

(** A hit comes from a state reached through passable states only, so it
    satisfies every property [P] that the start state has and that a step
    from a passable state keeps. *)
Lemma voxel_loop_ind {num : Type} `{Num num}
    (grid : list Z) (p : Stride num) (P : Ray num -> Prop) :
  (forall s, P s -> passable grid s -> P (dda_step p s)) ->
  forall (fuel : nat) (s : Ray num) (h : Hit num),
    P s ->
    voxel_loop grid GRID_SIZE p fuel s = Some h ->
    exists s', P s' /\
      in_grid (cell_of s') = true /\
      grid_get grid (idx (cell_of s')) = Some (voxelId h) /\
      0 < voxelId h /\
      h = mkHit (cell_of s') (normal s') (voxelId h) (dist s').
Proof.
  intros Hstep.
  induction fuel as [| fuel IH]; intros s h Hs Hrun; simpl in Hrun;
    [discriminate |].
  rewrite out_of_bounds_in_grid in Hrun.
  destruct (in_grid (cell_of s)) eqn:Hin; cbn [negb] in Hrun.
  - rewrite cell_index_idx in Hrun.
    destruct (grid_get grid (idx (cell_of s))) as [voxel |] eqn:Hget.
    + destruct (Z.ltb_spec 0 voxel) as [Hpos | Hnpos].
      * injection Hrun as <-. exists s. cbn [voxelId]. auto.
      * refine (IH _ _ (Hstep _ Hs (or_intror _)) Hrun).
        intros _ v Hv. rewrite Hget in Hv. injection Hv as <-. exact Hnpos.
    + refine (IH _ _ (Hstep _ Hs (or_intror _)) Hrun).
      intros _ v Hv. rewrite Hget in Hv. discriminate.
  - destruct (_ <? dist s)%num; [discriminate |].
    apply (IH _ _ (Hstep _ Hs (or_introl Hin)) Hrun).
Qed.

(** The same for the shader's loop. *)
Lemma glsl_loop_ind {num : Type} `{Num num}
    (grid : list Z) (p : Stride num) (P : Ray num -> Prop) :
  (forall s, P s -> passable grid s -> P (glsl_step p s)) ->
  forall (fuel : nat) (s s' : Ray num) (id : Z),
    P s ->
    glsl_loop grid p fuel s = Some (s', id) ->
    P s' /\
    in_grid (cell_of s') = true /\
    grid_get grid (idx (cell_of s')) = Some id /\
    0 < id.
Proof.
  intros Hstep.
  induction fuel as [| fuel IH]; intros s s' id Hs Hrun;
    cbn [glsl_loop] in Hrun; [discriminate |].
  rewrite out_of_bounds_in_grid in Hrun.
  destruct (in_grid (cell_of s)) eqn:Hin; cbn [negb] in Hrun.
  - unfold texel in Hrun. rewrite cell_index_idx in Hrun.
    destruct (grid_get grid (idx (cell_of s))) as [voxel |] eqn:Hget.
    + change (default 0 (Some voxel)) with voxel in Hrun.
      destruct (Z.ltb_spec 0 voxel) as [Hpos | Hnpos].
      * injection Hrun as <- <-. auto.
      * destruct (_ <? dist (glsl_step p s))%num; [discriminate |].
        refine (IH _ _ _ (Hstep _ Hs (or_intror _)) Hrun).
        intros _ v Hv. rewrite Hget in Hv. injection Hv as <-. exact Hnpos.
    + change (default 0 (@None Z)) with 0 in Hrun.
      change (0 <? 0) with false in Hrun. cbv iota in Hrun.
      destruct (_ <? dist (glsl_step p s))%num; [discriminate |].
      refine (IH _ _ _ (Hstep _ Hs (or_intror _)) Hrun).
      intros _ v Hv. rewrite Hget in Hv. discriminate.
  - destruct (_ <? dist s)%num; [discriminate |].
    destruct (_ <? dist (glsl_step p s))%num; [discriminate |].
    apply (IH _ _ _ (Hstep _ Hs (or_introl Hin)) Hrun).
Qed.

Lemma step_normal {num : Type} `{Num num} (p : Stride num) (s : Ray num) :
  (stepX p = 1 \/ stepX p = -1) ->
  (stepY p = 1 \/ stepY p = -1) ->
  (stepZ p = 1 \/ stepZ p = -1) ->
  axis_unit (normal (dda_step p s)).
Proof.
  intros Hx Hy Hz. unfold dda_step, axis_unit.
  destruct (sideDistX s <? sideDistY s)%num;
    [destruct (sideDistX s <? sideDistZ s)%num
    | destruct (sideDistY s <? sideDistZ s)%num];
    unfold advanceX, advanceY, advanceZ; cbn [normal];
    [destruct Hx as [-> | ->] | destruct Hz as [-> | ->]
    | destruct Hy as [-> | ->] | destruct Hz as [-> | ->]];
    cbn; tauto.
Qed.

Lemma cpu_stride_steps {num : Type} `{Num num} (rd : Vec3 num) :
  (stepX (cpu_stride rd) = 1 \/ stepX (cpu_stride rd) = -1) /\
  (stepY (cpu_stride rd) = 1 \/ stepY (cpu_stride rd) = -1) /\
  (stepZ (cpu_stride rd) = 1 \/ stepZ (cpu_stride rd) = -1).
Proof.
  unfold cpu_stride. cbn [stepX stepY stepZ].
  destruct (of_Z 0 <? v0 rd)%num, (of_Z 0 <? v1 rd)%num,
    (of_Z 0 <? v2 rd)%num; auto.
Qed.

Lemma in_grid_byte_at (grid : list Z) (c : Vec3 Z) :
  in_grid c = true ->
  (0 <= v0 c < 32 /\ 0 <= v1 c < 32 /\ 0 <= v2 c < 32) /\
  grid_get grid (idx c) = byte_at grid (v0 c) (v1 c) (v2 c).
Proof.
  intros Hin. pose proof (proj1 (in_grid_spec c) Hin) as Hb.
  split; [exact Hb |].
  unfold grid_get, byte_at, idx, GRID_SIZE.
  replace (v0 c + v1 c * 32 + v2 c * 32 * 32)
    with (v0 c + 32 * v1 c + 1024 * v2 c) by lia.
  destruct (Z.leb_spec 0 (v0 c + 32 * v1 c + 1024 * v2 c));
    [reflexivity | lia].
Qed.

(** X1. A CPU hit, for every number model.  The hit cell lies in
    [0,32)^3, its byte in the array is the reported id and is positive, and
    the reported normal is either a signed unit axis vector, or zero, and
    then the hit is the ray's own start cell at distance 0. *)
Theorem cpu_hit_sound {num : Type} `{Num num}
    (ro rd : Vec3 num) (grid : list Z) (h : Hit num) :
  intersectVoxels ro rd grid 32 = Some h ->
  let x := v0 (pos h) in
  let y := v1 (pos h) in
  let z := v2 (pos h) in
  (0 <= x < 32 /\ 0 <= y < 32 /\ 0 <= z < 32) /\
  grid !! Z.to_nat (x + 32 * y + 1024 * z) = Some (voxelId h) /\
  0 < voxelId h /\
  (hit_normal h = V3 1 0 0 \/ hit_normal h = V3 (-1) 0 0 \/
   hit_normal h = V3 0 1 0 \/ hit_normal h = V3 0 (-1) 0 \/
   hit_normal h = V3 0 0 1 \/ hit_normal h = V3 0 0 (-1) \/
   (hit_normal h = V3 0 0 0 /\ t h = of_Z 0 /\
    nfloor (v0 ro) = Some x /\ nfloor (v1 ro) = Some y /\
    nfloor (v2 ro) = Some z)).
Proof.
  unfold intersectVoxels. intros Hrun.
  destruct (nfloor (v0 ro)) as [x0 |]; [| discriminate].
  destruct (nfloor (v1 ro)) as [y0 |]; [| discriminate].
  destruct (nfloor (v2 ro)) as [z0 |]; [| discriminate].
  set (P := fun s : Ray num =>
    axis_unit (normal s) \/
    (normal s = V3 0 0 0 /\ dist s = of_Z 0 /\ cell_of s = V3 x0 y0 z0)).
  destruct (cpu_stride_steps rd) as (Sx & Sy & Sz).
  destruct (voxel_loop_ind grid (cpu_stride rd) P) with
    (fuel := Z.to_nat (32 * 2)) (s := cpu_start ro rd x0 y0 z0) (h := h)
    as (s' & Hp & Hin & Hget & Hpos & ->).
  - intros s _ _. left. apply step_normal; assumption.
  - right. repeat split.
  - exact Hrun.
  - cbv zeta. cbn [pos hit_normal voxelId t cell_of v0 v1 v2].
    destruct (in_grid_byte_at grid _ Hin) as [Hb Eb].
    rewrite Eb in Hget. cbn [cell_of v0 v1 v2] in Hb, Hget.
    split; [exact Hb |].
    split; [exact Hget |].
    split; [exact Hpos |].
    destruct Hp as [Hp | (Hn & Hd & Hc)].
    + unfold axis_unit in Hp. tauto.
    + do 6 right. injection Hc as Hx Hy Hz. rewrite Hx, Hy, Hz. auto.
Qed.

Lemma cpu_hit_sound_witness :
  (0 <= 8 < 32 /\ 0 <= 0 < 32 /\ 0 <= 8 < 32) /\
  oneVoxel 8 0 8 9 !! Z.to_nat (8 + 32 * 0 + 1024 * 8) = Some 9.
Proof.
  assert (E : intersectVoxels (V3 8.5 10 8.5)%float (V3 0 (-1) 0)%float
                (oneVoxel 8 0 8 9) 32
              = Some (mkHit (V3 8 0 8) (V3 0 1 0) 9 9%float))
    by (vm_compute; reflexivity).
  destruct (cpu_hit_sound _ _ _ _ E) as (S1 & S2 & _).
  split; [exact S1 | exact S2].
Defined.

Lemma sign_range {num : Type} `{Num num} (a : num) : -1 <= sign a <= 1.
Proof.
  unfold sign. destruct (of_Z 0 <? a)%num; [lia |].
  destruct (a <? of_Z 0)%num; lia.
Qed.

(** X2. A shader hit, for every number model and every [MAX_STEPS].  The
    shader either falls through to [VoxelHit(-1.0, vec3(0.0), 0)], or
    returns from a cell in [0,32)^3 whose byte is the returned id, which is
    positive, with a normal that has at most one nonzero component, -1 or
    1 (all zero in the start cell, or when the ray direction has a zero
    or NaN component on the axis crossed). *)
Theorem glsl_hit_sound {num : Type} `{Num num}
    (MAX_STEPS : Z) (ro rd : Vec3 num) (grid : list Z) :
  let r := intersectVoxels_glsl MAX_STEPS ro rd grid in
  match glsl_hit_cell MAX_STEPS ro rd grid with
  | Some c =>
      (0 <= v0 c < 32 /\ 0 <= v1 c < 32 /\ 0 <= v2 c < 32) /\
      grid !! Z.to_nat (v0 c + 32 * v1 c + 1024 * v2 c) = Some (vh_id r) /\
      0 < vh_id r /\
      exists k : Z, -1 <= k <= 1 /\
        (vh_normal r = V3 k 0 0 \/ vh_normal r = V3 0 k 0 \/
         vh_normal r = V3 0 0 k)
  | None => r = mkVoxelHit (of_Z (-1)) (V3 0 0 0) 0
  end.
Proof.
  intros r. unfold r, intersectVoxels_glsl, glsl_hit_cell, glsl_run.
  destruct (nfloor (v0 ro)) as [x0 |]; [| reflexivity].
  destruct (nfloor (v1 ro)) as [y0 |]; [| reflexivity].
  destruct (nfloor (v2 ro)) as [z0 |]; [| reflexivity].
  set (P := fun s : Ray num =>
    exists k : Z, -1 <= k <= 1 /\
      (normal s = V3 k 0 0 \/ normal s = V3 0 k 0 \/ normal s = V3 0 0 k)).
  destruct (glsl_loop grid (glsl_stride rd) (Z.to_nat MAX_STEPS)
              (glsl_start ro rd x0 y0 z0)) as [[s' id] |] eqn:Hrun;
    [| reflexivity].
  destruct (glsl_loop_ind grid (glsl_stride rd) P) with
    (fuel := Z.to_nat MAX_STEPS) (s := glsl_start ro rd x0 y0 z0)
    (s' := s') (id := id) as (Hp & Hin & Hget & Hpos).
  - intros s _ _. unfold P, glsl_step.
    pose proof (sign_range (v0 rd)). pose proof (sign_range (v1 rd)).
    pose proof (sign_range (v2 rd)).
    destruct (sideDistX s <? sideDistY s)%num;
      [destruct (sideDistX s <? sideDistZ s)%num
      | destruct (sideDistY s <? sideDistZ s)%num];
      unfold advanceX, advanceY, advanceZ, glsl_stride;
      cbn [normal stepX stepY stepZ];
      [exists (- sign (v0 rd)) | exists (- sign (v2 rd))
      | exists (- sign (v1 rd)) | exists (- sign (v2 rd))];
      (split; [lia | tauto]).
  - exists 0. split; [lia |]. left. reflexivity.
  - exact Hrun.
  - cbn [vh_id vh_normal v0 v1 v2].
    destruct (in_grid_byte_at grid _ Hin) as [Hb Eb].
    rewrite Eb in Hget. cbn [cell_of v0 v1 v2] in Hb, Hget.
    split; [exact Hb |]. split; [exact Hget |]. split; [exact Hpos |].
    exact Hp.
Qed.

(** ** Shader traversal: the iteration budget *)

Lemma glsl_loop_more_fuel {num : Type} `{Num num}
    (grid : list Z) (p : Stride num) :
  forall (fuel : nat) (s : Ray num) (r : Ray num * Z),
    glsl_loop grid p fuel s = Some r ->
    forall fuel' : nat, (fuel <= fuel')%nat ->
      glsl_loop grid p fuel' s = Some r.
Proof.
  induction fuel as [| fuel IH]; intros s r Hrun fuel' Hle;
    [discriminate |].
  destruct fuel' as [| fuel']; [lia |].
  assert (Hle' : (fuel <= fuel')%nat) by lia.
  cbn [glsl_loop] in Hrun |- *.
  destruct (out_of_bounds 32 s).
  - destruct (MAX_DIST <? dist s)%num; [discriminate |].
    destruct (MAX_DIST <? dist (glsl_step p s))%num; [discriminate |].
    exact (IH _ _ Hrun _ Hle').
  - destruct (0 <? texel grid s); [exact Hrun |].
    destruct (MAX_DIST <? dist (glsl_step p s))%num; [discriminate |].
    exact (IH _ _ Hrun _ Hle').
Qed.

(** X3. Raising the iteration budget never loses or changes a voxel hit,
    for every number model: what the shader built with [MAX_STEPS] returns
    as a hit (id > 0), the shader built with any larger budget returns as
    well, with the same distance, normal, id and cell.  In particular a hit
    of the LOW shader is the hit of the MEDIUM, HIGH and ULTRA shaders. *)
Theorem glsl_more_steps_same_hit {num : Type} `{Num num}
    (MAX_STEPS MAX_STEPS' : Z) (ro rd : Vec3 num) (grid : list Z) :
  MAX_STEPS <= MAX_STEPS' ->
  0 < vh_id (intersectVoxels_glsl MAX_STEPS ro rd grid) ->
  intersectVoxels_glsl MAX_STEPS' ro rd grid
    = intersectVoxels_glsl MAX_STEPS ro rd grid /\
  glsl_hit_cell MAX_STEPS' ro rd grid = glsl_hit_cell MAX_STEPS ro rd grid.
Proof.
  intros Hle. unfold intersectVoxels_glsl, glsl_hit_cell, glsl_run.
  destruct (nfloor (v0 ro)) as [x0 |]; [| cbn; lia].
  destruct (nfloor (v1 ro)) as [y0 |]; [| cbn; lia].
  destruct (nfloor (v2 ro)) as [z0 |]; [| cbn; lia].
  destruct (glsl_loop grid (glsl_stride rd) (Z.to_nat MAX_STEPS)
              (glsl_start ro rd x0 y0 z0)) as [[s' id] |] eqn:Hrun;
    [| cbn; lia].
  intros _.
  rewrite (glsl_loop_more_fuel grid _ _ _ _ Hrun (Z.to_nat MAX_STEPS'))
    by lia.
  split; reflexivity.
Qed.

Lemma glsl_more_steps_same_hit_witness :
  intersectVoxels_glsl (num := spec_float) 1024
    seventhRay_ro seventhRay_rd twoVoxels
  = intersectVoxels_glsl 64 seventhRay_ro seventhRay_rd twoVoxels.
Proof.
  refine (proj1 (glsl_more_steps_same_hit 64 1024
                   seventhRay_ro seventhRay_rd twoVoxels _ _)).
  - lia.
  - vm_compute. reflexivity.
Defined.

(** ** Edits: the Delete and Light tools *)

(** X4. A Delete-tool edit on hit cell [(hx,hy,hz)], for every number
    model: the byte at index [hx + 32*hy + 1024*hz] is set to 0 when that
    index lies within the array, the lights and everything else stay as
    they are, and the normal plays no part.  The test is on the flat index
    alone, not on the three coordinates. *)
Theorem delete_tool_edit {num : Type} `{Num num}
    (st : AppState num) (hx hy hz : Z) (n : Vec3 Z) :
  tool st = DELETE ->
  let i := hx + 32 * hy + 1024 * hz in
  let st' := handleBlockAction st (V3 hx hy hz) n in
  lights st' = lights st /\
  cameraPos st' = cameraPos st /\
  tool st' = DELETE /\
  (0 <= i < Z.of_nat (length (gridData st)) ->
     gridData st' = <[Z.to_nat i := 0]> (gridData st)) /\
  (~ (0 <= i < Z.of_nat (length (gridData st))) ->
     gridData st' = gridData st).
Proof.
  intros Ht i st'.
  assert (Ei : idx (V3 hx hy hz) = i)
    by (unfold idx, GRID_SIZE, i; cbn [v0 v1 v2]; lia).
  unfold st', handleBlockAction, blockGridUpdate. rewrite Ht.
  cbn [lights cameraPos tool gridData set_gridData]. rewrite Ei.
  split; [reflexivity |]. split; [reflexivity |]. split; [exact Ht |].
  split.
  - intros Hi.
    destruct (Z.leb_spec 0 i); [| lia].
    destruct (Z.ltb_spec i (Z.of_nat (length (gridData st)))); [| lia].
    cbn [andb]. unfold grid_set.
    destruct (Z.leb_spec 0 i); [reflexivity | lia].
  - intros Hi.
    destruct (Z.leb_spec 0 i);
      destruct (Z.ltb_spec i (Z.of_nat (length (gridData st))));
      cbn [andb]; try reflexivity.
    lia.
Qed.

Lemma delete_tool_edit_witness :
  let st := sceneAt (num := float) (V3 16 8 4)%float DELETE in
  gridData (handleBlockAction st (V3 16 0 16) (V3 0 1 0))
  = <[Z.to_nat (16 + 32 * 0 + 1024 * 16) := 0]> (gridData st).
Proof.
  intros st.
  destruct (delete_tool_edit st 16 0 16 (V3 0 1 0) eq_refl)
    as (_ & _ & _ & Hw & _).
  apply Hw. split; [lia |]. vm_compute. reflexivity.
Defined.

(** X5. A Light-tool edit with hit cell [(hx,hy,hz)] and normal
    [(nx,ny,nz)], for every number model: the grid is untouched, and while
    fewer than 10 lights exist one light is appended at the centre of the
    cell [hit + normal], with the selected palette colour, radius 2.0 and
    intensity 2.0.  Neither the grid bounds nor the camera distance are
    tested for a light. *)
Theorem light_tool_edit {num : Type} `{Num num}
    (st : AppState num) (hx hy hz nx ny nz : Z) (col : Vec3 num) :
  tool st = LIGHT ->
  0 <= selectedColorIdx st ->
  PALETTE !! Z.to_nat (selectedColorIdx st) = Some col ->
  (length (lights st) < 10)%nat ->
  let st' := handleBlockAction st (V3 hx hy hz) (V3 nx ny nz) in
  gridData st' = gridData st /\
  lights st' =
    lights st ++
    [mkLight (V3 (of_Z (hx + nx) + dec 5 1)%num
                 (of_Z (hy + ny) + dec 5 1)%num
                 (of_Z (hz + nz) + dec 5 1)%num)
             col (of_Z 2) (of_Z 2)].
Proof.
  intros Ht Hsel Hcol Hlen st'.
  unfold st', handleBlockAction, blockGridUpdate, lightsUpdate.
  rewrite Ht. cbn [gridData lights set_gridData set_lights].
  split; [reflexivity |].
  destruct (Nat.ltb_spec (length (lights st)) 10) as [_ | F]; [| lia].
  unfold palette_color.
  destruct (Z.leb_spec 0 (selectedColorIdx st)); [| lia].
  rewrite Hcol. reflexivity.
Qed.

Lemma light_tool_edit_witness :
  let st := sceneAt (num := float) (V3 16 8 4)%float LIGHT in
  lights (handleBlockAction st (V3 31 0 16) (V3 1 0 0))
  = lights st ++
    [mkLight (V3 32.5 0.5 16.5)%float (V3 (dec 9 1) (dec 9 1) (dec 9 1))
       2%float 2%float].
Proof.
  intros st.
  refine (proj2 (light_tool_edit st 31 0 16 1 0 0
                   (V3 (dec 9 1) (dec 9 1) (dec 9 1)) eq_refl _ eq_refl _)).
  - change (selectedColorIdx st) with 0. lia.
  - change (length (lights st)) with 2%nat. lia.
Defined.

(** ** The flat index *)

(** X6. The index [x + y*32 + z*32*32] of [handleBlockAction] is a
    bijection between the cells of [0,32)^3 and the array indices
    [0, 32768): it maps cells into the range and is injective on them, and
    the index [i] is that of the cell
    [(i mod 32, (i / 32) mod 32, i / 1024)]. *)
Theorem idx_bijection :
  (forall x y z : Z,
     0 <= x < 32 -> 0 <= y < 32 -> 0 <= z < 32 ->
     0 <= idx (V3 x y z) < 32768) /\
  (forall x y z x' y' z' : Z,
     0 <= x < 32 -> 0 <= y < 32 -> 0 <= z < 32 ->
     0 <= x' < 32 -> 0 <= y' < 32 -> 0 <= z' < 32 ->
     idx (V3 x y z) = idx (V3 x' y' z') -> x = x' /\ y = y' /\ z = z') /\
  (forall i : Z,
     0 <= i < 32768 ->
     let x := i mod 32 in
     let y := (i / 32) mod 32 in
     let z := i / 1024 in
     (0 <= x < 32 /\ 0 <= y < 32 /\ 0 <= z < 32) /\ idx (V3 x y z) = i).
Proof.
  unfold idx, GRID_SIZE. cbn [v0 v1 v2].
  split; [| split].
  - intros. lia.
  - intros. lia.
  - intros i Hi. cbv zeta.
    pose proof (Z.div_mod i 32 ltac:(lia)) as D1.
    pose proof (Z.div_mod (i / 32) 32 ltac:(lia)) as D2.
    pose proof (Z.mod_pos_bound i 32 ltac:(lia)) as B1.
    pose proof (Z.mod_pos_bound (i / 32) 32 ltac:(lia)) as B2.
    assert (E : i / 32 / 32 = i / 1024)
      by (rewrite Z.div_div by lia; reflexivity).
    rewrite <- E.
    assert (0 <= i / 32 / 32 < 32).
    { split; [apply Z.div_pos; [apply Z.div_pos |]; lia |].
      apply Z.div_lt_upper_bound; [lia |].
      apply Z.div_lt_upper_bound; lia. }
    lia.
Qed.

Lemma idx_bijection_witness :
  idx (V3 (17424 mod 32) ((17424 / 32) mod 32) (17424 / 1024)) = 17424.
Proof.
  refine (proj2 (proj2 (proj2 idx_bijection) 17424 _)). lia.
Defined.

(** ** Quality presets *)

(** X7. The quality button walks the four presets in a cycle, LOW,
    MEDIUM, HIGH, ULTRA and back; along LOW, MEDIUM, HIGH, ULTRA the
    iteration budget, the bounce count and the shadow budget strictly
    increase, and in binary64 the resolution scale never decreases and
    stays within (0, 1]. *)
Theorem quality_presets_ordered :
  (toggleQuality LOW = MEDIUM /\ toggleQuality MEDIUM = HIGH /\
   toggleQuality HIGH = ULTRA /\ toggleQuality ULTRA = LOW) /\
  (forall q : QualityMode,
     toggleQuality q <> q /\
     toggleQuality (toggleQuality (toggleQuality (toggleQuality q))) = q) /\
  (forall q : QualityMode,
     q <> ULTRA ->
     let c := getQualityConfig (num := float) q in
     let c' := getQualityConfig (num := float) (toggleQuality q) in
     maxSteps c < maxSteps c' /\
     maxBounces c < maxBounces c' /\
     shadowSteps c < shadowSteps c' /\
     PrimFloat.leb (qscale c) (qscale c') = true) /\
  (forall q : QualityMode,
     let c := getQualityConfig (num := float) q in
     PrimFloat.ltb 0 (qscale c) = true /\
     PrimFloat.leb (qscale c) 1 = true /\
     64 <= maxSteps c <= 1024).
Proof.
  split; [repeat split |].
  split; [intros []; split; (discriminate || reflexivity) |].
  split.
  - intros [] Hq c c'; try congruence; vm_compute; repeat split.
  - intros []; vm_compute; repeat split; discriminate.
Qed.

Lemma quality_presets_ordered_witness :
  maxSteps (getQualityConfig (num := float) MEDIUM)
  < maxSteps (getQualityConfig (num := float) (toggleQuality MEDIUM)).
Proof.
  refine (proj1 (proj1 (proj2 (proj2 quality_presets_ordered)) MEDIUM _)).
  discriminate.
Defined.

(** ** Reachable states *)

Lemma valid_idb_spec (v : Z) : valid_idb v = true -> valid_id v.
Proof. unfold valid_idb, valid_id. lia. Qed.

Lemma initialGrid_valid : Forall valid_id initialGrid.
Proof.
  assert (E : forallb valid_idb initialGrid = true)
    by (vm_compute; reflexivity).
  apply Forall_forall. intros v Hv. apply valid_idb_spec.
  apply (proj1 (forallb_forall valid_idb initialGrid) E).
  apply list_elem_of_In, Hv.
Qed.

Lemma grid_set_valid (grid : list Z) (i v : Z) :
  Forall valid_id grid -> valid_id (v mod 256) ->
  Forall valid_id (grid_set grid i v).
Proof.
  intros Hg Hv. unfold grid_set.
  destruct (0 <=? i); [apply Forall_insert; assumption | exact Hg].
Qed.

Lemma filter_index_length {A : Type} (l : list A) :
  forall lightIndex i : Z,
    (length (filter_index lightIndex i l) <= length l)%nat.
Proof.
  induction l as [| a l IH]; intros lightIndex i; cbn [filter_index length];
    [lia |].
  specialize (IH lightIndex (i + 1)).
  destruct (i =? lightIndex); cbn [negb length]; lia.
Qed.

Lemma handleBlockAction_inv {num : Type} `{Num num}
    (st : AppState num) (hitPos nrm : Vec3 Z) :
  app_inv st -> app_inv (handleBlockAction st hitPos nrm).
Proof.
  intros (Hlen & Hval & Hl & Hsel).
  assert (Hgrid :
    Z.of_nat (length (blockGridUpdate st hitPos nrm (gridData st))) = 32768
    /\ Forall valid_id (blockGridUpdate st hitPos nrm (gridData st))).
  { unfold blockGridUpdate. destruct (tool st).
    - destruct (in_grid _); [| auto].
      destruct (_ <? _)%num; [| auto].
      split; [rewrite grid_set_length; exact Hlen |].
      apply grid_set_valid; [exact Hval |].
      unfold valid_id, MIRROR_ID.
      destruct (isMirrorSelected st); [right; right; reflexivity |].
      rewrite Z.mod_small by lia. lia.
    - auto.
    - destruct (_ && _); [| auto].
      split; [rewrite grid_set_length; exact Hlen |].
      apply grid_set_valid; [exact Hval |]. left. reflexivity. }
  destruct Hgrid as [Hlen' Hval'].
  unfold handleBlockAction, app_inv.
  destruct (tool st);
    cbn [gridData lights selectedColorIdx set_gridData set_lights];
    repeat split; try assumption; try lia.
  unfold lightsUpdate.
  destruct (Nat.ltb_spec (length (lights st)) 10);
    [rewrite length_app; cbn [length]; lia | exact Hl].
Qed.

Lemma handleLightClick_inv {num : Type} `{Num num}
    (st : AppState num) (lightIndex : Z) :
  app_inv st -> app_inv (handleLightClick st lightIndex).
Proof.
  intros (Hlen & Hval & Hl & Hsel). unfold handleLightClick.
  destruct (tool st); unfold app_inv;
    cbn [gridData lights selectedColorIdx set_lights];
    repeat split; try assumption; try lia.
  pose proof (filter_index_length (lights st) lightIndex 0). lia.
Qed.

Lemma act_inv {num : Type} `{Num num} (Math_cos Math_sin : num -> num)
    (st : AppState num) (a : Action num) :
  action_ok a -> app_inv st -> app_inv (act Math_cos Math_sin st a).
Proof.
  intros Hok Hinv. destruct a as [| i | | tl | p yaw pitch]; cbn [act].
  - unfold performRaycastAction.
    destruct (resolvePick Math_cos Math_sin st) as [i | h |].
    + apply handleLightClick_inv, Hinv.
    + apply handleBlockAction_inv, Hinv.
    + exact Hinv.
  - destruct Hinv as (Hlen & Hval & Hl & Hsel).
    cbn [action_ok] in Hok. unfold PALETTE_SIZE in Hok.
    unfold app_inv, handleSelectColor.
    cbn [gridData lights selectedColorIdx]. auto.
  - exact Hinv.
  - exact Hinv.
  - exact Hinv.
Qed.

(** X8. In every state the application reaches from its initial state by
    clicks, palette, mirror and tool buttons and camera updates, for every
    number model and whatever [Math.cos] and [Math.sin] return: the grid
    holds 32768 bytes, each byte is 0, a palette id 1..16 or the mirror id
    100, there are at most 10 lights, and the selected palette index is
    below 16. *)
Theorem reachable_inv {num : Type} `{Num num}
    (Math_cos Math_sin : num -> num) (st : AppState num) :
  reachable Math_cos Math_sin st ->
  Z.of_nat (length (gridData st)) = 32768 /\
  (forall (i : nat) (v : Z),
     gridData st !! i = Some v -> v = 0 \/ 1 <= v <= 16 \/ v = 100) /\
  (length (lights st) <= 10)%nat /\
  0 <= selectedColorIdx st < 16.
Proof.
  intros Hr.
  assert (Hinv : app_inv st).
  { induction Hr as [| st a Hr IH Hok].
    - unfold app_inv, initialState. cbn [gridData lights selectedColorIdx].
      split; [vm_compute; reflexivity |].
      split; [exact initialGrid_valid |].
      split; [cbn; lia | lia].
    - apply act_inv; assumption. }
  destruct Hinv as (Hlen & Hval & Hl & Hsel).
  split; [exact Hlen |]. split; [| split; assumption].
  intros i v Hv. exact (Forall_lookup_1 _ _ _ _ Hval Hv).
Qed.

(** Move the camera down to the floor's level, then click: the floor
    voxel (16,0,8) ahead is hit and a block is put in front of it. *)
Lemma reachable_inv_witness :
  let st := act (num := float) cos_at_0 sin_at_0
              (act cos_at_0 sin_at_0 initialState
                 (CameraMove (V3 16.5 0.5 4.5)%float 0%float 0%float))
              Click in
  Z.of_nat (length (gridData st)) = 32768 /\
  (length (lights st) <= 10)%nat.
Proof.
  intros st.
  assert (Hr : reachable cos_at_0 sin_at_0 st).
  { apply reach_act; [apply reach_act; [apply reach_init |] |]; exact I. }
  destruct (reachable_inv _ _ _ Hr) as (H1 & _ & H3 & _).
  split; assumption.
Defined.

(** The click of that run, evaluated: cell (16,0,7) receives palette id 1. *)
Example reachable_click_run :
  let st := act (num := float) cos_at_0 sin_at_0
              (act cos_at_0 sin_at_0 initialState
                 (CameraMove (V3 16.5 0.5 4.5)%float 0%float 0%float))
              Click in
  byte_at (gridData (initialState (num := float))) 16 0 7 = Some 0 /\
  byte_at (gridData st) 16 0 7 = Some 1.
Proof. vm_compute. split; reflexivity. Qed.

(** ** Vector kernel, in exact arithmetic *)

Lemma normalize_R (a : Vec3 R) :
  a <> V3 0%R 0%R 0%R ->
  (0 < sqrt (dot a a))%R /\
  normalize a = V3 (v0 a / sqrt (dot a a))%R (v1 a / sqrt (dot a a))%R
                   (v2 a / sqrt (dot a a))%R.
Proof.
  intros Hne.
  assert (Hl : (0 < sqrt (dot a a))%R)
    by (apply sqrt_lt_R0, dot_self_pos, Hne).
  split; [exact Hl |].
  change (normalize a)
    with (if Reqb (sqrt (dot a a)) 0 then V3 0%R 0%R 0%R
          else V3 (v0 a / sqrt (dot a a))%R (v1 a / sqrt (dot a a))%R
                  (v2 a / sqrt (dot a a))%R).
  rewrite (proj2 (Reqb_false _ _)) by lra. reflexivity.
Qed.

(** X9. In exact arithmetic, [normalize] of a nonzero vector has
    Euclidean length 1 (also as [len] computes it), is the argument scaled
    by a positive factor, and is left unchanged by a second [normalize]. *)
Theorem normalize_unit (a : Vec3 R) :
  a <> V3 0%R 0%R 0%R ->
  let n := normalize a in
  (v0 n * v0 n + v1 n * v1 n + v2 n * v2 n = 1)%R /\
  len n = 1%R /\
  (exists k : R, (0 < k)%R /\
     v0 n = (k * v0 a)%R /\ v1 n = (k * v1 a)%R /\ v2 n = (k * v2 a)%R) /\
  normalize n = n.
Proof.
  intros Hne n. unfold n. destruct (normalize_R a Hne) as [Hl En].
  pose proof (dot_self_pos a Hne) as Hd.
  assert (Hsq : (sqrt (dot a a) * sqrt (dot a a) = dot a a)%R)
    by (apply sqrt_sqrt; lra).
  set (l := sqrt (dot a a)) in *.
  assert (Edot : dot (normalize a) (normalize a) = 1%R).
  { rewrite En, dot_self_R. cbn [v0 v1 v2].
    rewrite dot_self_R in Hsq.
    replace ((v0 a / l) * (v0 a / l) + (v1 a / l) * (v1 a / l)
             + (v2 a / l) * (v2 a / l))%R
      with ((v0 a * v0 a + v1 a * v1 a + v2 a * v2 a) / (l * l))%R
      by (field; lra).
    rewrite Hsq. field. rewrite dot_self_R in Hd. lra. }
  split; [rewrite <- dot_self_R; exact Edot |].
  split.
  { change (len (normalize a))
      with (sqrt (dot (normalize a) (normalize a))).
    rewrite Edot. apply sqrt_1. }
  split.
  - exists (/ l)%R. split; [apply Rinv_0_lt_compat; exact Hl |].
    rewrite En. cbn [v0 v1 v2]. repeat split; unfold Rdiv; ring.
  - assert (Hn : normalize a <> V3 0%R 0%R 0%R).
    { intros E. rewrite E in Edot. rewrite dot_self_R in Edot.
      cbn [v0 v1 v2] in Edot. lra. }
    destruct (normalize_R (normalize a) Hn) as [_ E2].
    rewrite E2, Edot, sqrt_1.
    destruct (normalize a) as [x y z]. cbn [v0 v1 v2]. f_equal; field.
Qed.

Lemma normalize_unit_witness :
  let n := normalize (V3 3%R 0%R 4%R) in
  (v0 n * v0 n + v1 n * v1 n + v2 n * v2 n = 1)%R.
Proof.
  refine (proj1 (normalize_unit (V3 3%R 0%R 4%R) _)).
  intros E. injection E as E0 _. lra.
Defined.

(** X10. In exact arithmetic the cross product is orthogonal to both
    arguments, changes sign when they are swapped, and vanishes on equal
    arguments; its components are those of the determinant formula. *)
Theorem cross_orthogonal (a b : Vec3 R) :
  let c := cross a b in
  (v0 c * v0 a + v1 c * v1 a + v2 c * v2 a = 0)%R /\
  (v0 c * v0 b + v1 c * v1 b + v2 c * v2 b = 0)%R /\
  cross b a = V3 (- v0 c)%R (- v1 c)%R (- v2 c)%R /\
  cross a a = V3 0%R 0%R 0%R /\
  c = V3 (v1 a * v2 b - v2 a * v1 b)%R (v2 a * v0 b - v0 a * v2 b)%R
         (v0 a * v1 b - v1 a * v0 b)%R.
Proof.
  destruct a as [a0 a1 a2], b as [b0 b1 b2].
  unfold cross. cbn [v0 v1 v2 nadd nsub nmul RNum].
  repeat split; try (f_equal; ring); ring.
Qed.

(** ** Sphere intersection, in exact arithmetic *)

Lemma intersectSphere_R (ro rd center : Vec3 R) (radius : R) :
  intersectSphere ro rd center radius =
    let b := dot (sub ro center) rd in
    let h := (b * b - (dot (sub ro center) (sub ro center)
                       - radius * radius))%R in
    if Rltb h 0 then None
    else if Rltb 0 (- b - sqrt h) then Some (- b - sqrt h)%R
    else if Rltb 0 (- b + sqrt h) then Some (- b + sqrt h)%R
    else None.
Proof. reflexivity. Qed.

Lemma intersectSphere_glsl_R (ro rd center : Vec3 R) (radius : R) :
  intersectSphere_glsl ro rd center radius =
    let b := dot (sub ro center) rd in
    let h := (b * b - (dot (sub ro center) (sub ro center)
                       - radius * radius))%R in
    if Rltb h 0 then (-1)%R else (- b - sqrt h)%R.
Proof. reflexivity. Qed.

(** The squared distance from [center] of the point at parameter [u]. *)
Lemma sphere_point_dist (ro rd center : Vec3 R) (u : R) :
  (v0 rd * v0 rd + v1 rd * v1 rd + v2 rd * v2 rd = 1)%R ->
  ((v0 ro + u * v0 rd - v0 center) * (v0 ro + u * v0 rd - v0 center)
   + (v1 ro + u * v1 rd - v1 center) * (v1 ro + u * v1 rd - v1 center)
   + (v2 ro + u * v2 rd - v2 center) * (v2 ro + u * v2 rd - v2 center)
   = u * u + 2 * dot (sub ro center) rd * u
     + dot (sub ro center) (sub ro center))%R.
Proof.
  intros Hu.
  destruct ro as [o0 o1 o2], rd as [d0 d1 d2], center as [c0 c1 c2].
  unfold dot, sub in *. cbn [v0 v1 v2 nadd nsub nmul RNum] in *.
  replace (u * u)%R with (u * u * (d0 * d0 + d1 * d1 + d2 * d2))%R
    by (rewrite Hu; ring).
  ring.
Qed.

(** X11. In exact arithmetic and for a unit direction, the CPU
    [intersectSphere] returns the smallest positive ray parameter whose
    point [ro + u * rd] lies on the sphere, and [null] exactly when no
    positive parameter does. *)
Theorem intersectSphere_nearest (ro rd center : Vec3 R) (radius : R) :
  (v0 rd * v0 rd + v1 rd * v1 rd + v2 rd * v2 rd = 1)%R ->
  let on_sphere (u : R) :=
    ((v0 ro + u * v0 rd - v0 center) * (v0 ro + u * v0 rd - v0 center)
     + (v1 ro + u * v1 rd - v1 center) * (v1 ro + u * v1 rd - v1 center)
     + (v2 ro + u * v2 rd - v2 center) * (v2 ro + u * v2 rd - v2 center)
     = radius * radius)%R in
  match intersectSphere ro rd center radius with
  | Some tau =>
      (0 < tau)%R /\ on_sphere tau /\
      forall u, (0 < u)%R -> on_sphere u -> (tau <= u)%R
  | None => forall u, (0 < u)%R -> ~ on_sphere u
  end.
Proof.
  intros Hu on_sphere.
  set (b := dot (sub ro center) rd).
  set (cc := (dot (sub ro center) (sub ro center) - radius * radius)%R).
  set (h := (b * b - cc)%R).
  assert (Hon : forall u, on_sphere u <-> ((u + b) * (u + b) = h)%R).
  { intros u. unfold on_sphere.
    rewrite (sphere_point_dist ro rd center u Hu). fold b.
    unfold h, cc. split; intros E; lra. }
  assert (Hroots : (0 <= h)%R -> forall u, on_sphere u ->
                   u = (- b - sqrt h)%R \/ u = (- b + sqrt h)%R).
  { intros Hh u Ho. apply Hon in Ho.
    pose proof (sqrt_sqrt h Hh) as Hs.
    assert (Hz : ((u + b - sqrt h) * (u + b + sqrt h) = 0)%R) by nra.
    apply Rmult_integral in Hz. destruct Hz; [right | left]; lra. }
  rewrite intersectSphere_R. cbv zeta. fold b. fold cc. fold h.
  unfold Rltb.
  destruct (Rlt_dec h 0) as [Hneg | Hh].
  - intros u _ Ho. apply Hon in Ho.
    pose proof (Rle_0_sqr (u + b)) as Hsq. unfold Rsqr in Hsq. lra.
  - assert (Hh' : (0 <= h)%R) by lra.
    pose proof (sqrt_sqrt h Hh') as Hs.
    pose proof (sqrt_pos h) as Hsp.
    destruct (Rlt_dec 0 (- b - sqrt h)) as [H0 | H0].
    + split; [exact H0 |]. split.
      * apply Hon. nra.
      * intros u Hu0 Ho. destruct (Hroots Hh' u Ho); lra.
    + destruct (Rlt_dec 0 (- b + sqrt h)) as [H1 | H1].
      * split; [exact H1 |]. split.
        -- apply Hon. nra.
        -- intros u Hu0 Ho. destruct (Hroots Hh' u Ho); lra.
      * intros u Hu0 Ho. destruct (Hroots Hh' u Ho); lra.
Qed.

Lemma intersectSphere_nearest_witness :
  match intersectSphere (V3 0 0 0)%R (V3 0 0 1)%R (V3 0 0 5)%R 1%R with
  | Some tau => (0 < tau)%R
  | None => False
  end.
Proof.
  assert (Hu : (v0 (V3 0 0 1) * v0 (V3 0 0 1) + v1 (V3 0 0 1) * v1 (V3 0 0 1)
                + v2 (V3 0 0 1) * v2 (V3 0 0 1) = 1)%R)
    by (cbn [v0 v1 v2]; lra).
  pose proof (intersectSphere_nearest (V3 0 0 0)%R (V3 0 0 1)%R
                (V3 0 0 5)%R 1%R Hu) as N.
  cbv zeta in N.
  destruct (intersectSphere _ _ _ _) as [tau |].
  - apply N.
  - apply (N 4%R); [lra |]. cbn [v0 v1 v2]. lra.
Defined.

(** X12. In exact arithmetic, for every ray whose origin is strictly
    outside the sphere, the shader's [intersectSphere], read as its callers
    read it (a hit is a result > 0), agrees with the CPU routine: the
    missing far-root branch only matters from inside the sphere. *)
Theorem glsl_sphere_agrees_outside (ro rd center : Vec3 R) (radius : R) :
  (radius * radius
   < (v0 ro - v0 center) * (v0 ro - v0 center)
     + (v1 ro - v1 center) * (v1 ro - v1 center)
     + (v2 ro - v2 center) * (v2 ro - v2 center))%R ->
  let r := intersectSphere_glsl ro rd center radius in
  (if Rlt_dec 0 r then Some r else None)
  = intersectSphere ro rd center radius.
Proof.
  intros Hout r. unfold r.
  rewrite intersectSphere_R, intersectSphere_glsl_R. cbv zeta.
  set (b := dot (sub ro center) rd).
  assert (Ed : dot (sub ro center) (sub ro center)
               = ((v0 ro - v0 center) * (v0 ro - v0 center)
                  + (v1 ro - v1 center) * (v1 ro - v1 center)
                  + (v2 ro - v2 center) * (v2 ro - v2 center))%R)
    by reflexivity.
  rewrite Ed.
  set (d2 := ((v0 ro - v0 center) * (v0 ro - v0 center)
              + (v1 ro - v1 center) * (v1 ro - v1 center)
              + (v2 ro - v2 center) * (v2 ro - v2 center))%R) in *.
  set (h := (b * b - (d2 - radius * radius))%R).
  unfold Rltb. destruct (Rlt_dec h 0) as [Hneg | Hh].
  - destruct (Rlt_dec 0 (-1)); [lra | reflexivity].
  - destruct (Rlt_dec 0 (- b - sqrt h)) as [H0 | H0]; [reflexivity |].
    destruct (Rlt_dec 0 (- b + sqrt h)) as [H1 | H1]; [| reflexivity].
    exfalso.
    assert (Hh' : (0 <= h)%R) by lra.
    pose proof (sqrt_sqrt h Hh') as Hs. pose proof (sqrt_pos h) as Hsp.
    assert (Hlt : (h < b * b)%R) by (unfold h; lra).
    nra.
Qed.

Lemma glsl_sphere_agrees_outside_witness :
  let r := intersectSphere_glsl (V3 0 0 0)%R (V3 0 0 1)%R (V3 0 0 5)%R 1%R in
  (if Rlt_dec 0 r then Some r else None)
  = intersectSphere (V3 0 0 0)%R (V3 0 0 1)%R (V3 0 0 5)%R 1%R.
Proof.
  apply glsl_sphere_agrees_outside. cbn [v0 v1 v2]. lra.
Defined.
